(** * Population Stability Index: a shallow embedding of [psi.py]

    The development follows [psi_calc] of [src/psi.py] line by line:
    input conversion (lines 47-62), the empty-sample return (64-66),
    binning of numerical data with [pd.cut] / [pd.qcut] (69-95),
    relative frequencies (99-102), the outer join and the two frequency
    tables [df0] / [df1] (105-107) and the PSI sum (110-111).

    Conventions of the embedding.
    - Floating point numbers are idealised: sample values, bin edges and
      frequencies are rationals ([Q], exact arithmetic, executable); the
      PSI value lives in [float], the reals extended with the two
      infinities and NaN, because it contains a logarithm.  Rounding,
      signed zeros and infinite sample values are not modelled.
    - Python exceptions are values of [exn]; a computation that may raise
      returns a [result].
    - [pd.cut], [pd.qcut], [value_counts] and [join] are library calls of
      [psi_calc]; they are modelled after the pandas routines of
      [pandas/core/reshape/tile.py] on exact rationals. *)

From Stdlib Require Import QArith Qabs Qround Qreals Reals List String ZArith Lia Psatz Bool.
From Stdlib Require Import Permutation.
Import ListNotations.

Local Open Scope string_scope.
Local Open Scope list_scope.

(** ** Exceptions and results *)

Inductive exn : Type :=
| ValueError (msg : string)
| AssertionError (msg : string)
| TypeError (msg : string)
| AttributeError (msg : string)
| IndexError (msg : string).

Inductive result (A : Type) : Type :=
| Ok (a : A)
| Raise (e : exn).

Arguments Ok {A} a.
Arguments Raise {A} e.

Definition bind {A B : Type} (m : result A) (k : A -> result B) : result B :=
  match m with
  | Ok a => k a
  | Raise e => Raise e
  end.

Notation "x <- m ;; k" := (bind m (fun x => k))
  (at level 61, m at next level, right associativity).
Notation "' pat <- m ;; k" := (bind m (fun x => match x with pat => k end))
  (at level 61, pat pattern, m at next level, right associativity).

(** [assert cond, msg] *)
Definition py_assert (cond : bool) (msg : string) : result unit :=
  if cond then Ok tt else Raise (AssertionError msg).

(** ** Samples *)

(** An element of a sample: a finite number, the missing marker, or a
    label.  Infinite values are not represented. *)
Inductive value : Type :=
| VNum (q : Q)
| VNaN
| VStr (s : string).

(** The dtype of a Series as far as [psi_calc] looks at it: line 69
    compares it with ["int"] and ["float"]. *)
Inductive dtype : Type :=
| d_int
| d_float
| d_object.

Record Series : Type := mkSeries {
  s_dtype : dtype;
  s_values : list value
}.

Definition s_empty (s : Series) : bool :=
  match s_values s with
  | [] => true
  | _ :: _ => false
  end.

Definition s_len (s : Series) : nat := List.length (s_values s).

Definition is_numeric_dtype (d : dtype) : bool :=
  match d with
  | d_int | d_float => true
  | d_object => false
  end.

(** What a caller may pass for [X1] / [X2]: the Series carried by each
    constructor is the one pandas builds from the container. *)
Inductive pyinput : Type :=
| InSeries (s : Series)
| InArray (ndim : nat) (s : Series)
| InList (s : Series)
| InDataFrame (ncols : nat) (col : Series)
| InOther.

(** After conversion a sample is a Series, except that [squeeze] of a
    one-row, one-column DataFrame is a scalar. *)
Inductive pdobj : Type :=
| PSeries (s : Series)
| PScalar (v : value).

Definition squeeze (col : Series) : pdobj :=
  match s_values col with
  | [v] => PScalar v
  | _ => PSeries col
  end.

(** Lines 47-54 (and 55-62 with the other message). *)
Definition convert_input (X : pyinput) (msg : string) : result pdobj :=
  match X with
  | InSeries s => Ok (PSeries s)
  | InArray ndim s =>
      if Nat.eqb ndim 1 then Ok (PSeries s) else Raise (ValueError msg)
  | InList s => Ok (PSeries s)
  | InDataFrame ncols col =>
      if Nat.eqb ncols 1 then Ok (squeeze col) else Raise (ValueError msg)
  | InOther => Raise (ValueError msg)
  end.

(** The attribute [.empty]: a scalar has none. *)
Definition obj_empty (o : pdobj) : result bool :=
  match o with
  | PSeries s => Ok (s_empty s)
  | PScalar _ => Raise (AttributeError "object has no attribute 'empty'")
  end.

(** ** Idealised floats for the PSI value *)

Inductive float : Type :=
| NaN
| Inf (negative : bool)
| Fin (r : R).

Local Open Scope R_scope.

Definition fsub (x y : float) : float :=
  match x, y with
  | Fin a, Fin b => Fin (a - b)
  | Fin _, Inf s => Inf (negb s)
  | Inf s, Fin _ => Inf s
  | Inf s, Inf t => if Bool.eqb s t then NaN else Inf s
  | _, _ => NaN
  end.

Definition fadd (x y : float) : float :=
  match x, y with
  | Fin a, Fin b => Fin (a + b)
  | Fin _, Inf s => Inf s
  | Inf s, Fin _ => Inf s
  | Inf s, Inf t => if Bool.eqb s t then Inf s else NaN
  | _, _ => NaN
  end.

Definition is_neg (a : R) : bool := if Rlt_dec a 0 then true else false.
Definition is_zero (a : R) : bool := if Req_dec_T a 0 then true else false.

Definition fmul (x y : float) : float :=
  match x, y with
  | Fin a, Fin b => Fin (a * b)
  | Fin a, Inf s => if is_zero a then NaN else Inf (xorb (is_neg a) s)
  | Inf s, Fin b => if is_zero b then NaN else Inf (xorb s (is_neg b))
  | Inf s, Inf t => Inf (xorb s t)
  | _, _ => NaN
  end.

Definition fdiv (x y : float) : float :=
  match x, y with
  | Fin a, Fin b =>
      if is_zero b then (if is_zero a then NaN else Inf (is_neg a))
      else Fin (a / b)
  | Fin _, Inf _ => Fin 0
  | Inf s, Fin b => Inf (xorb s (is_neg b))
  | _, _ => NaN
  end.

(** [np.log] *)
Definition flog (x : float) : float :=
  match x with
  | Fin a =>
      if is_zero a then Inf true
      else if is_neg a then NaN
      else Fin (ln a)
  | Inf false => Inf false
  | _ => NaN
  end.

Definition float_of_Q (q : Q) : float := Fin (Q2R q).

Local Close Scope R_scope.

(** ** The pandas routines called by [psi_calc] *)

Local Open Scope Q_scope.

Definition num_of (v : value) : option Q :=
  match v with
  | VNum q => Some q
  | _ => None
  end.

(** The numbers of a sample, missing values skipped (as [min], [max] and
    [quantile] do). *)
Fixpoint observed (xs : list value) : list Q :=
  match xs with
  | [] => []
  | x :: r =>
      match num_of x with
      | Some q => q :: observed r
      | None => observed r
      end
  end.

Definition qmin (a b : Q) : Q := if Qle_bool a b then a else b.
Definition qmax (a b : Q) : Q := if Qle_bool a b then b else a.

Definition Qlt_bool (a b : Q) : bool := negb (Qle_bool b a).

Definition of_nat (n : nat) : Q := inject_Z (Z.of_nat n).

(** [np.linspace(a, b, n + 1)]: the points [a + i * (b - a) / n], in exact
    arithmetic (numpy rounds each point to a float). *)
Definition linspace (a b : Q) (n : nat) : list Q :=
  map (fun i => a + of_nat i * ((b - a) / of_nat n)) (seq 0 (S n)).

(** [_nbins_to_bins] with [right=True]: [n] equal-width bins over the
    observed range, the first edge lowered by 0.1% of the range.  From a
    sample without any observed number pandas computes NaN edges, which the
    cut of line 95 then rejects, so that [psi_calc] fails whatever sample 2
    holds.  Edges are rationals here, without NaN: the embedding raises
    that error at this point already.  (The check for infinite values has
    no counterpart, see [value].) *)
Definition nbins_to_bins (xs : list value) (n : Z) : result (list Q) :=
  if (n <? 1)%Z then Raise (ValueError "`bins` should be a positive integer.")
  else
    match observed xs with
    | [] => Raise (ValueError "bins must increase monotonically.")
    | o :: os =>
        let mn := fold_left qmin os o in
        let mx := fold_left qmax os o in
        if Qeq_bool mn mx then
          let mn' := mn - (if Qeq_bool mn 0 then 1 # 1000 else (1 # 1000) * Qabs mn) in
          let mx' := mx + (if Qeq_bool mx 0 then 1 # 1000 else (1 # 1000) * Qabs mx) in
          Ok (linspace mn' mx' (Z.to_nat n))
        else
          let adj := (mx - mn) * (1 # 1000) in
          match linspace mn mx (Z.to_nat n) with
          | [] => Ok []
          | b0 :: r => Ok ((b0 - adj) :: r)
          end
    end.

(** [algos.unique]: first occurrences, in order. *)
Fixpoint unique (l : list Q) : list Q :=
  match l with
  | [] => []
  | x :: r => x :: filter (fun y => negb (Qeq_bool x y)) (unique r)
  end.

(** [bins.is_monotonic_increasing] *)
Fixpoint is_monotonic_increasing (l : list Q) : bool :=
  match l with
  | [] => true
  | x :: r =>
      match r with
      | [] => true
      | y :: _ => Qle_bool x y && is_monotonic_increasing r
      end
  end.

(** [bins.searchsorted(x, side="left")]: the first position whose edge is
    not below [x]. *)
Fixpoint searchsorted_left (bins : list Q) (x : Q) : nat :=
  match bins with
  | [] => 0%nat
  | b :: r => if Qle_bool x b then 0%nat else S (searchsorted_left r x)
  end.

(** One element through [_bins_to_cuts] with [right=True] and
    [include_lowest=True]: [None] is the missing category. *)
Definition bin_of (bins : list Q) (b0 : Q) (v : value) : option (Q * Q) :=
  match num_of v with
  | None => None
  | Some x =>
      let ids := if Qeq_bool x b0 then 1%nat else searchsorted_left bins x in
      if Nat.eqb ids (List.length bins) || Nat.eqb ids 0 then None
      else Some (nth (ids - 1) bins 0, nth ids bins 0)
  end.

(** [_bins_to_cuts]; [drop] is [duplicates="drop"], otherwise ["raise"]. *)
Definition bins_to_cuts (xs : list value) (bins : list Q) (drop : bool)
  : result (list (option (Q * Q)) * list Q) :=
  let unique_bins := unique bins in
  bins' <- (if Nat.ltb (List.length unique_bins) (List.length bins)
               && negb (Nat.eqb (List.length bins) 2)
            then if drop then Ok unique_bins
                 else Raise (ValueError "Bin edges must be unique")
            else Ok bins) ;;
  match bins' with
  | [] => Raise (IndexError "index 0 is out of bounds for axis 0 with size 0")
  | b0 :: _ => Ok (map (bin_of bins' b0) xs, bins')
  end.

(** The argument [bins] of [psi_calc]. *)
Inductive bins_arg : Type :=
| BinsInt (n : Z)
| BinsList (l : list Q)
| BinsArray (l : list Q)
| BinsNone.

(** [pd.cut(x, bins, retbins=True, include_lowest=True, duplicates=...)] *)
Definition pd_cut (xs : list value) (bins : bins_arg) (drop : bool)
  : result (list (option (Q * Q)) * list Q) :=
  match bins with
  | BinsInt n => b <- nbins_to_bins xs n ;; bins_to_cuts xs b drop
  | BinsList l | BinsArray l =>
      if is_monotonic_increasing l then bins_to_cuts xs l drop
      else Raise (ValueError "bins must increase monotonically.")
  | BinsNone =>
      Raise (TypeError "'<' not supported between instances of 'NoneType' and 'int'")
  end.

Fixpoint insert_sorted (x : Q) (l : list Q) : list Q :=
  match l with
  | [] => [x]
  | y :: r => if Qle_bool x y then x :: l else y :: insert_sorted x r
  end.

Definition sort (l : list Q) : list Q := fold_right insert_sorted [] l.

(** [Series.quantile(p)] with linear interpolation on the sorted sample. *)
Definition quantile (s : list Q) (p : Q) : Q :=
  let h := of_nat (List.length s - 1) * p in
  let lo := Z.to_nat (Qfloor h) in
  let a := nth lo s 0 in
  let b := nth (Nat.min (S lo) (List.length s - 1)) s 0 in
  a + (h - inject_Z (Qfloor h)) * (b - a).

(** [pd.qcut(x, q, retbins=True, duplicates="drop")] for an integer [q].
    A sample without any observed number is treated as in [nbins_to_bins].
    What pandas does for [q < 1] depends on its version; the properties
    below speak of [q >= 1] only. *)
Definition pd_qcut (xs : list value) (q : Z)
  : result (list (option (Q * Q)) * list Q) :=
  if (q <? 0)%Z then Raise (ValueError "Number of samples must be non-negative.")
  else
    match observed xs with
    | [] => Raise (ValueError "bins must increase monotonically.")
    | obs =>
        let s := sort obs in
        bins_to_cuts xs (map (quantile s) (linspace 0 1 (Z.to_nat q))) true
    end.

(** ** Categories *)

(** What ends up in the index of the frequency table: a raw value
    (categorical data), the text of an interval, or the text ["nan"].
    pandas prints an interval with its two ends rounded to [precision]
    digits and the lowest end lowered by [10^-precision]; here an interval
    category is identified by the two exact edges it was cut with (in
    lowest terms), and no property below speaks of the printed text. *)
Inductive category : Type :=
| CatRaw (v : value)
| CatInterval (lo hi : Q)
| CatNan.

(** [.astype(str)] on the result of a cut. *)
Definition astype_str (c : option (Q * Q)) : category :=
  match c with
  | Some (l, r) => CatInterval (Qred l) (Qred r)
  | None => CatNan
  end.

(** A raw value as a key of [value_counts]: equal numbers are one key. *)
Definition raw_key (v : value) : category :=
  match v with
  | VNum q => CatRaw (VNum (Qred q))
  | _ => CatRaw v
  end.

Definition Q_eqb (a b : Q) : bool :=
  Z.eqb (Qnum a) (Qnum b) && Pos.eqb (Qden a) (Qden b).

Definition value_eqb (a b : value) : bool :=
  match a, b with
  | VNum p, VNum q => Q_eqb p q
  | VNaN, VNaN => true
  | VStr s, VStr t => String.eqb s t
  | _, _ => false
  end.

Definition category_eqb (a b : category) : bool :=
  match a, b with
  | CatRaw v, CatRaw w => value_eqb v w
  | CatInterval l r, CatInterval l' r' => Q_eqb l l' && Q_eqb r r'
  | CatNan, CatNan => true
  | _, _ => false
  end.

(** ** Frequencies, the joined table and the PSI sum *)

Fixpoint count (c : category) (l : list category) : nat :=
  match l with
  | [] => 0%nat
  | d :: r => if category_eqb c d then S (count c r) else count c r
  end.

(** The distinct categories of a sample, first occurrences in order (the
    order of the rows is not significant for what follows). *)
Fixpoint distinct (l : list category) : list category :=
  match l with
  | [] => []
  | c :: r => c :: filter (fun d => negb (category_eqb c d)) (distinct r)
  end.

(** A Series indexed by category. *)
Definition FreqSeries : Type := list (category * Q).

(** [X.value_counts(dropna=False) / len(X)] (lines 99-100). *)
Definition frequencies (l : list category) : FreqSeries :=
  map (fun c => (c, of_nat (count c l) / of_nat (List.length l))) (distinct l).

Fixpoint lookup (c : category) (s : FreqSeries) : option Q :=
  match s with
  | [] => None
  | (d, f) :: r => if category_eqb c d then Some f else lookup c r
  end.

Definition has_key (c : category) (s : FreqSeries) : bool :=
  match lookup c s with
  | Some _ => true
  | None => false
  end.

(** A row of a two-column frame: the category, then the columns
    ["expected"] and ["actual"]. *)
Record row (A : Type) : Type := mkRow {
  r_key : category;
  expected : A;
  actual : A
}.

Arguments mkRow {A} r_key expected actual.
Arguments r_key {A} r.
Arguments expected {A} r.
Arguments actual {A} r.

(** [pd.DataFrame(X1f).join(X2f, how="outer")] (line 105): a cell without
    a partner is missing. *)
Definition join_outer (X1f X2f : FreqSeries) : list (row (option Q)) :=
  map (fun cf => mkRow (fst cf) (Some (snd cf)) (lookup (fst cf) X2f)) X1f
  ++ map (fun cf => mkRow (fst cf) None (Some (snd cf)))
         (filter (fun cf => negb (has_key (fst cf) X1f)) X2f).

Definition DataFrame : Type := list (row Q).

Definition fillna_cell (zero : Q) (c : option Q) : Q :=
  match c with
  | Some f => f
  | None => zero
  end.

(** [df.fillna(0.0)] (line 106) *)
Definition fillna (zero : Q) (df : list (row (option Q))) : DataFrame :=
  map (fun r => mkRow (r_key r) (fillna_cell zero (expected r))
                               (fillna_cell zero (actual r))) df.

Definition replace_cell (old new c : Q) : Q :=
  if Qeq_bool c old then new else c.

(** [df0.replace({0.0: regulariser})] (line 107) *)
Definition replace (old new : Q) (df : DataFrame) : DataFrame :=
  map (fun r => mkRow (r_key r) (replace_cell old new (expected r))
                               (replace_cell old new (actual r))) df.

(** The lambda of line 110. *)
Definition psi_term (x : row Q) : float :=
  fmul (fsub (float_of_Q (expected x)) (float_of_Q (actual x)))
       (flog (fdiv (float_of_Q (expected x)) (float_of_Q (actual x)))).

(** Python's [sum] (line 111). *)
Definition py_sum (l : list float) : float := fold_left fadd l (Fin 0%R).

(** ** [psi_calc] *)

Definition is_list_or_array (bins : bins_arg) : bool :=
  match bins with
  | BinsList _ | BinsArray _ => true
  | _ => false
  end.

Definition msg_invalid_X1 : string := "Invalid type of input for X1".
Definition msg_invalid_X2 : string := "Invalid type of input for X2".
Definition msg_X2_not_numerical : string := "X2 is not numerical while X1 is.".
Definition msg_breaks_explicit : string :=
  "When method_num_feature, breaks must be given explicitly".
Definition msg_quantiles_int : string :=
  "for method_num_feature=quantiles, bins must be an integer".
Definition msg_invalid_method : string :=
  "Invalid method chosen in method_num_feature".

(** Lines 73-93: the bins of sample 1 and its categories. *)
Definition bin_expected (xs1 : list value) (method_num_feature : option string)
    (bins : bins_arg) : result (list (option (Q * Q)) * list Q) :=
  match method_num_feature with
  | None =>
      _ <- py_assert (is_list_or_array bins) msg_breaks_explicit ;;
      pd_cut xs1 bins true
  | Some m =>
      if String.eqb m "equidistant" then pd_cut xs1 bins true
      else if String.eqb m "quantiles" then
        match bins with
        | BinsInt q => pd_qcut xs1 q
        | _ => Raise (AssertionError msg_quantiles_int)
        end
      else Raise (ValueError msg_invalid_method)
  end.

(** Lines 69-98: both samples as sequences of categories. *)
Definition categorize (X1 X2 : Series) (method_num_feature : option string)
    (bins : bins_arg) (force_categorical : bool)
  : result (list category * list category) :=
  if is_numeric_dtype (s_dtype X1) && negb force_categorical then
    _ <- py_assert (is_numeric_dtype (s_dtype X2)) msg_X2_not_numerical ;;
    X1b <- bin_expected (s_values X1) method_num_feature bins ;;
    X2b <- pd_cut (s_values X2) (BinsArray (snd X1b)) false ;;
    Ok (map astype_str (fst X1b), map astype_str (fst X2b))
  else
    Ok (map raw_key (s_values X1), map raw_key (s_values X2)).

(** Lines 99-113. *)
Definition aggregate (X1 X2 : list category) (regulariser : Q)
  : float * DataFrame :=
  let X1f := frequencies X1 in
  let X2f := frequencies X2 in
  let df := join_outer X1f X2f in
  let df0 := fillna 0 df in
  let df1 := replace 0 regulariser df0 in
  (py_sum (map psi_term df1), df0).

(** Lines 64-66: [None] stands for the early return. *)
Definition check_empty (X1 X2 : pdobj) : result (option (Series * Series)) :=
  e1 <- obj_empty X1 ;;
  if e1 then Ok None
  else
    e2 <- obj_empty X2 ;;
    if e2 then Ok None
    else
      match X1, X2 with
      | PSeries s1, PSeries s2 => Ok (Some (s1, s2))
      | _, _ => Raise (AttributeError "object has no attribute 'empty'")
      end.

Definition psi_calc (X1 X2 : pyinput) (method_num_feature : option string)
    (bins : bins_arg) (force_categorical : bool) (regulariser : Q)
    (precision : Z) : result (float * DataFrame) :=
  X1 <- convert_input X1 msg_invalid_X1 ;;
  X2 <- convert_input X2 msg_invalid_X2 ;;
  ne <- check_empty X1 X2 ;;
  match ne with
  | None => Ok (NaN, [])
  | Some (X1, X2) =>
      cats <- categorize X1 X2 method_num_feature bins force_categorical ;;
      Ok (aggregate (fst cats) (snd cats) regulariser)
  end.

(** ** The error kinds of the specification

    [psi_calc] signals its own failures with [assert] and [ValueError];
    the specification names them by kind. *)

Definition TypeMismatch : exn := AssertionError msg_X2_not_numerical.

Definition is_configuration_error (e : exn) : bool :=
  match e with
  | AssertionError msg =>
      String.eqb msg msg_breaks_explicit || String.eqb msg msg_quantiles_int
  | ValueError msg => String.eqb msg msg_invalid_method
  | _ => false
  end.

Definition is_int (bins : bins_arg) : bool :=
  match bins with
  | BinsInt _ => true
  | _ => false
  end.

(** The three ways binning parameters are invalid: no method and no
    explicit breaks, quantiles with something else than an integer, a
    method that is not recognised. *)
Definition invalid_binning (method_num_feature : option string)
    (bins : bins_arg) : bool :=
  match method_num_feature with
  | None => negb (is_list_or_array bins)
  | Some m =>
      if String.eqb m "equidistant" then false
      else if String.eqb m "quantiles" then negb (is_int bins)
      else true
  end.

(** ** Notions used in the statements *)

(** The relative frequency of category [c] in sample [l]. *)
Definition freq_of (l : list category) (c : category) : Q :=
  of_nat (count c l) / of_nat (List.length l).

(** A cell of [df0]: the frequency when the category was observed, the
    filled-in [0.0] when it was not. *)
Definition cell0 (l : list category) (c : category) : Q :=
  if (0 <? count c l)%nat then freq_of l c else 0.

(** The table [df0] of line 106, from the two category sequences. *)
Definition df0_of (X1 X2 : list category) : DataFrame :=
  fillna 0 (join_outer (frequencies X1) (frequencies X2)).

(** The sum of one column of a table. *)
Definition col_sum (col : row Q -> Q) (df : DataFrame) : Q :=
  fold_right (fun r acc => col r + acc) 0 df.

(** The counts of the categories [ks] in the sample [l], added up. *)
Definition sum_counts (ks l : list category) : nat :=
  fold_right (fun c acc => (count c l + acc)%nat) 0%nat ks.

(** The category of one element under given edges: [_bins_to_cuts]
    followed by [astype(str)]. *)
Definition category_of (breaks : list Q) (v : value) : category :=
  astype_str (bin_of breaks (hd 0 breaks) v).

(** The smallest and the largest edge. *)
Definition min_edge (breaks : list Q) : Q :=
  fold_left qmin (tl breaks) (hd 0 breaks).

Definition max_edge (breaks : list Q) : Q :=
  fold_left qmax (tl breaks) (hd 0 breaks).

(** A missing element. *)
Definition is_missing (v : value) : bool :=
  match num_of v with
  | None => true
  | Some _ => false
  end.

(** An element of sample 2 that gets no interval: missing, or a number
    strictly outside [[min_edge, max_edge]]. *)
Definition unbinned (breaks : list Q) (v : value) : bool :=
  match num_of v with
  | None => true
  | Some x => Qlt_bool x (min_edge breaks) || Qlt_bool (max_edge breaks) x
  end.

(** ** The PSI value in the words of the specification

    These definitions follow the text of the specification, section 4.3,
    not the code; they are compared with [aggregate] below. *)

(** The union of the categories observed in either sample. *)
Definition spec_categories (X1 X2 : list category) : list category :=
  distinct (X1 ++ X2).

(** The fraction of the elements of a sample that fall in a category:
    count divided by sample size. *)
Definition spec_frequency (X : list category) (c : category) : Q :=
  of_nat (count c X) / of_nat (List.length X).

(** A cell equal to exactly [0.0] becomes the regulariser, any other cell
    is unchanged. *)
Definition spec_regularised (regulariser f : Q) : Q :=
  if Qeq_bool f 0 then regulariser else f.

(** [(expected - actual) * ln (expected / actual)] *)
Definition spec_term (e a : Q) : float :=
  fmul (fsub (float_of_Q e) (float_of_Q a))
       (flog (fdiv (float_of_Q e) (float_of_Q a))).

(** The sum of the terms over all categories of the union. *)
Definition spec_psi (X1 X2 : list category) (regulariser : Q) : float :=
  py_sum (map (fun c => spec_term
                          (spec_regularised regulariser (spec_frequency X1 c))
                          (spec_regularised regulariser (spec_frequency X2 c)))
              (spec_categories X1 X2)).

(** ** Example samples *)

(** The sample of the empty-input example, and a sample of labels. *)
Definition sample_1_2_3 : Series :=
  mkSeries d_int [VNum 1; VNum 2; VNum 3].

Definition sample_a_b : Series := mkSeries d_object [VStr "a"; VStr "b"].

(** The regularisation example: expected [1,1,1,2,2], actual
    [1,1,1,1,1], taken as categorical. *)
Definition sample_11122 : Series :=
  mkSeries d_int [VNum 1; VNum 1; VNum 1; VNum 2; VNum 2].

Definition sample_11111 : Series :=
  mkSeries d_int [VNum 1; VNum 1; VNum 1; VNum 1; VNum 1].

Definition cats_11122 : list category := map raw_key (s_values sample_11122).

Definition cats_11111 : list category := map raw_key (s_values sample_11111).

(** A non-empty sample of missing values only, as in
    [np.array([np.nan, np.nan])]. *)
Definition all_missing : Series := mkSeries d_float [VNaN; VNaN].

(** The two samples of [main_psi.py], example 1. *)
Definition main_X1 : Series :=
  mkSeries d_float
    (map VNum [1; 2; 3; 3; 5; 4; 2; 2; 3; 2; 3; 4; 2; 2; 2; 5; 4; 5; 7]
     ++ [VNaN; VNum 7]).

Definition main_X2 : Series :=
  mkSeries d_float
    (map VNum [1; 2; 2; 3; 5; 4; 2] ++ [VNaN] ++ map VNum [3; 2] ++ [VNaN]
     ++ map VNum [4; 2; 2; 2; 5; 3; 5; 6] ++ [VNaN]).

(** The call [psi_calc(X1=X1, X2=X2, method_num_feature="equidistant",
    bins=3)] of [main_psi.py]. *)
Definition main_call_equidistant : result (float * DataFrame) :=
  psi_calc (InArray 1 main_X1) (InArray 1 main_X2)
           (Some "equidistant") (BinsInt 3) false (1 # 10000) 3.

Definition main_cats_equidistant : list category * list category :=
  match categorize main_X1 main_X2 (Some "equidistant") (BinsInt 3) false with
  | Ok cats => cats
  | Raise _ => ([], [])
  end.

Definition main_result_equidistant : float * DataFrame :=
  aggregate (fst main_cats_equidistant) (snd main_cats_equidistant) (1 # 10000).

(** A sample 2 with the value 0 below and the value 9 above the edges of
    sample 1, and a missing value. *)
Definition range_X1 : Series :=
  mkSeries d_float [VNum 1; VNum 2; VNum 3; VNaN].

Definition range_X2 : Series :=
  mkSeries d_float [VNum 0; VNaN; VNum 9; VNum 2].

Definition range_breaks : list Q :=
  match bin_expected (s_values range_X1) (Some "equidistant") (BinsInt 3) with
  | Ok r => snd r
  | Raise _ => []
  end.

Definition range_result : float * DataFrame :=
  aggregate (map (category_of range_breaks) (s_values range_X1))
            (map (category_of range_breaks) (s_values range_X2)) (1 # 10000).

(** ** Notions and samples for the further properties *)

(** The containers the two [isinstance] cascades let through. *)
Definition acceptable (X : pyinput) : bool :=
  match X with
  | InSeries _ | InList _ => true
  | InArray ndim _ => Nat.eqb ndim 1
  | InDataFrame ncols _ => Nat.eqb ncols 1
  | InOther => false
  end.

(** The two errors of lines 54 and 62. *)
Definition is_input_error (e : exn) : bool :=
  match e with
  | ValueError msg => String.eqb msg msg_invalid_X1 || String.eqb msg msg_invalid_X2
  | _ => false
  end.

(** Messages of exceptions raised below [psi_calc]. *)
Definition msg_no_empty : string := "object has no attribute 'empty'".

Definition msg_bins_positive : string := "`bins` should be a positive integer.".

Definition msg_monotonic : string := "bins must increase monotonically.".

(** All categories the edges can give: ["nan"] and one interval per pair
    of neighbouring edges. *)
Definition labels (breaks : list Q) : list category :=
  CatNan
    :: map (fun i => CatInterval (Qred (nth (i - 1) breaks 0))
                                 (Qred (nth i breaks 0)))
           (seq 1 (List.length breaks - 1)).

(** Example 3 of [main_psi.py], shortened: all of sample 2 lies above the
    range of sample 1. *)
Definition disjoint_X1 : Series :=
  mkSeries d_float [VNum 0; VNum (1 # 10); VNum 0; VNum (1 # 10)].

Definition disjoint_X2 : Series :=
  mkSeries d_float [VNum 1; VNum (11 # 10); VNum 1; VNum (11 # 10)].

Definition disjoint_breaks : list Q :=
  match bin_expected (s_values disjoint_X1) (Some "equidistant") (BinsInt 3) with
  | Ok r => snd r
  | Raise _ => []
  end.

Definition disjoint_result : float * DataFrame :=
  aggregate (map (category_of disjoint_breaks) (s_values disjoint_X1))
            (map (category_of disjoint_breaks) (s_values disjoint_X2))
            (1 # 10000).

(** The term of a row as a real number, for two positive frequencies. *)
Definition term_R (r : row Q) : R :=
  ((Q2R (expected r) - Q2R (actual r))
   * ln (Q2R (expected r) / Q2R (actual r)))%R.

(** The sample [1,1,1,2,2] in another order. *)
Definition sample_21121 : Series :=
  mkSeries d_int [VNum 2; VNum 1; VNum 1; VNum 2; VNum 1].

(** A row with its two columns exchanged. *)
Definition swap_row (r : row Q) : row Q :=
  mkRow (r_key r) (actual r) (expected r).

(** * Properties *)

(** ** Equality of categories *)

Lemma Q_eqb_eq (a b : Q) : Q_eqb a b = true <-> a = b.
Proof.
  unfold Q_eqb. destruct a as [n d], b as [n' d']; simpl.
  rewrite andb_true_iff, Z.eqb_eq, Pos.eqb_eq.
  split; [intros [-> ->]; reflexivity | intros H; inversion H; auto].
Qed.

Lemma value_eqb_eq (a b : value) : value_eqb a b = true <-> a = b.
Proof.
  destruct a, b; simpl; try (split; [discriminate | congruence]).
  - rewrite Q_eqb_eq. split; congruence.
  - split; reflexivity.
  - rewrite String.eqb_eq. split; congruence.
Qed.

Lemma category_eqb_eq (a b : category) : category_eqb a b = true <-> a = b.
Proof.
  destruct a, b; simpl; try (split; [discriminate | congruence]).
  - rewrite value_eqb_eq. split; congruence.
  - rewrite andb_true_iff, !Q_eqb_eq. split; [intros [-> ->]; reflexivity | intros H; inversion H; auto].
  - split; reflexivity.
Qed.

Lemma category_eqb_refl (a : category) : category_eqb a a = true.
Proof. apply category_eqb_eq. reflexivity. Qed.

Lemma category_eqb_neq (a b : category) : category_eqb a b = false <-> a <> b.
Proof.
  rewrite <- category_eqb_eq. destruct (category_eqb a b); split; congruence.
Qed.

Lemma category_eqb_sym (a b : category) : category_eqb a b = category_eqb b a.
Proof.
  destruct (category_eqb a b) eqn:E.
  - apply category_eqb_eq in E. subst. symmetry. apply category_eqb_refl.
  - symmetry. apply category_eqb_neq. apply category_eqb_neq in E. congruence.
Qed.

(** ** Counting *)

Lemma count_pos_iff (c : category) (l : list category) :
  (0 < count c l)%nat <-> In c l.
Proof.
  induction l as [|d r IH]; simpl.
  - split; [lia | tauto].
  - destruct (category_eqb c d) eqn:E.
    + apply category_eqb_eq in E. subst. split; [auto | lia].
    + apply category_eqb_neq in E. rewrite IH. split; [auto | intros [H|H]; congruence].
Qed.

Lemma count_zero_iff (c : category) (l : list category) :
  count c l = 0%nat <-> ~ In c l.
Proof. rewrite <- count_pos_iff. lia. Qed.

Lemma count_app (c : category) (l1 l2 : list category) :
  count c (l1 ++ l2) = (count c l1 + count c l2)%nat.
Proof.
  induction l1 as [|d r IH]; simpl; auto.
  destruct (category_eqb c d); rewrite IH; reflexivity.
Qed.

Lemma distinct_In (c : category) (l : list category) :
  In c (distinct l) <-> In c l.
Proof.
  induction l as [|d r IH]; simpl; [tauto|].
  rewrite filter_In, IH, negb_true_iff, category_eqb_neq.
  destruct (category_eqb d c) eqn:E.
  - apply category_eqb_eq in E. tauto.
  - apply category_eqb_neq in E. tauto.
Qed.

Lemma distinct_NoDup (l : list category) : NoDup (distinct l).
Proof.
  induction l as [|d r IH]; simpl; constructor.
  - rewrite filter_In, negb_true_iff, category_eqb_neq. tauto.
  - apply NoDup_filter. exact IH.
Qed.

Lemma filter_filter_comm {A : Type} (f g : A -> bool) (l : list A) :
  filter f (filter g l) = filter g (filter f l).
Proof.
  induction l as [|a r IH]; simpl; auto.
  destruct (g a) eqn:G, (f a) eqn:F; simpl; rewrite ?G, ?F, IH; reflexivity.
Qed.

Lemma filter_filter_andb {A : Type} (f g : A -> bool) (l : list A) :
  filter f (filter g l) = filter (fun x => g x && f x) l.
Proof.
  induction l as [|a r IH]; simpl; auto.
  destruct (g a) eqn:G; simpl; [destruct (f a); rewrite IH|]; auto.
Qed.

(** The distinct categories of two samples side by side: those of the
    first, then the new ones of the second. *)
Lemma distinct_app (l1 l2 : list category) :
  distinct (l1 ++ l2)
  = distinct l1 ++ filter (fun d => negb (0 <? count d l1)%nat) (distinct l2).
Proof.
  induction l1 as [|c r IH]; simpl.
  - symmetry. apply forallb_filter_id. apply forallb_forall. reflexivity.
  - f_equal. rewrite IH, filter_app. f_equal.
    rewrite filter_filter_andb. apply filter_ext. intros d.
    rewrite (category_eqb_sym d c).
    destruct (category_eqb c d); simpl; [apply andb_false_r | apply andb_true_r].
Qed.

(** ** The frequency table, cell by cell *)

Lemma lookup_map (g : category -> Q) (c : category) (ks : list category) :
  lookup c (map (fun k => (k, g k)) ks)
  = if existsb (category_eqb c) ks then Some (g c) else None.
Proof.
  induction ks as [|d r IH]; simpl; auto.
  destruct (category_eqb c d) eqn:E; simpl; auto.
  apply category_eqb_eq in E. subst. reflexivity.
Qed.

Lemma existsb_distinct (c : category) (l : list category) :
  existsb (category_eqb c) (distinct l) = (0 <? count c l)%nat.
Proof.
  destruct (0 <? count c l)%nat eqn:E.
  - apply Nat.ltb_lt in E. apply -> count_pos_iff in E. apply <- distinct_In in E.
    apply existsb_exists. exists c. split; [exact E | apply category_eqb_refl].
  - apply Nat.ltb_ge in E.
    destruct (existsb (category_eqb c) (distinct l)) eqn:X; auto.
    apply existsb_exists in X. destruct X as [d [Hd Hcd]].
    apply category_eqb_eq in Hcd. subst d.
    apply -> distinct_In in Hd. apply <- count_pos_iff in Hd. lia.
Qed.

Lemma frequencies_map (l : list category) :
  frequencies l = map (fun c => (c, freq_of l c)) (distinct l).
Proof. reflexivity. Qed.

Lemma lookup_frequencies (c : category) (l : list category) :
  lookup c (frequencies l)
  = if (0 <? count c l)%nat then Some (freq_of l c) else None.
Proof.
  rewrite frequencies_map, (lookup_map (freq_of l)), existsb_distinct.
  reflexivity.
Qed.

Lemma has_key_frequencies (c : category) (l : list category) :
  has_key c (frequencies l) = (0 <? count c l)%nat.
Proof.
  unfold has_key. rewrite lookup_frequencies.
  destruct (0 <? count c l)%nat; reflexivity.
Qed.

Lemma filter_map_swap {A B : Type} (f : B -> bool) (g : A -> B) (l : list A) :
  filter f (map g l) = map g (filter (fun a => f (g a)) l).
Proof.
  induction l as [|a r IH]; simpl; auto.
  destruct (f (g a)); simpl; rewrite IH; reflexivity.
Qed.

Lemma df0_rows (X1 X2 : list category) :
  df0_of X1 X2
  = map (fun c => mkRow c (cell0 X1 c) (cell0 X2 c)) (distinct (X1 ++ X2)).
Proof.
  unfold df0_of, join_outer, fillna.
  rewrite distinct_app, !map_app. f_equal.
  - rewrite (frequencies_map X1), !map_map. apply map_ext_in.
    intros c Hc; simpl. unfold cell0. rewrite lookup_frequencies.
    apply -> distinct_In in Hc. apply <- count_pos_iff in Hc. apply Nat.ltb_lt in Hc.
    rewrite Hc. destruct (0 <? count c X2)%nat; reflexivity.
  - rewrite (frequencies_map X2), filter_map_swap, !map_map. simpl.
    rewrite (filter_ext _ (fun d => negb (0 <? count d X1)%nat)).
    2:{ intros d. rewrite has_key_frequencies. reflexivity. }
    apply map_ext_in. intros c Hc. apply filter_In in Hc. destruct Hc as [Hc Hn].
    unfold cell0. apply negb_true_iff in Hn. rewrite Hn.
    apply -> distinct_In in Hc. apply <- count_pos_iff in Hc. apply Nat.ltb_lt in Hc.
    rewrite Hc. reflexivity.
Qed.

Lemma aggregate_unfold (X1 X2 : list category) (regulariser : Q) :
  aggregate X1 X2 regulariser
  = (py_sum (map psi_term (replace 0 regulariser (df0_of X1 X2))), df0_of X1 X2).
Proof. reflexivity. Qed.

(** ** Unfolding [psi_calc] on two non-empty Series *)

Lemma psi_calc_nonempty (X1 X2 : pyinput) (s1 s2 : Series)
    (m : option string) (bins : bins_arg) (fc : bool) (reg : Q) (prec : Z) :
  convert_input X1 msg_invalid_X1 = Ok (PSeries s1) ->
  convert_input X2 msg_invalid_X2 = Ok (PSeries s2) ->
  s_empty s1 = false -> s_empty s2 = false ->
  psi_calc X1 X2 m bins fc reg prec
  = (cats <- categorize s1 s2 m bins fc ;;
     Ok (aggregate (fst cats) (snd cats) reg)).
Proof.
  intros H1 H2 E1 E2. unfold psi_calc. rewrite H1, H2. simpl.
  unfold check_empty. simpl. rewrite E1. simpl. rewrite E2. reflexivity.
Qed.

(** ** Empty samples *)

Lemma psi_calc_empty_sample_aux (X1 X2 : pyinput) (s1 s2 : Series)
    (m : option string) (bins : bins_arg) (fc : bool) (reg : Q) (prec : Z) :
  convert_input X1 msg_invalid_X1 = Ok (PSeries s1) ->
  convert_input X2 msg_invalid_X2 = Ok (PSeries s2) ->
  s_empty s1 = true \/ s_empty s2 = true ->
  psi_calc X1 X2 m bins fc reg prec = Ok (NaN, []).
Proof.
  intros H1 H2 HE. unfold psi_calc. rewrite H1, H2. simpl.
  unfold check_empty. simpl.
  destruct (s_empty s1) eqn:E1; simpl; [reflexivity|].
  destruct HE as [HE|HE]; [discriminate|]. rewrite HE. reflexivity.
Qed.

(** C5.  When both inputs convert to a Series and one of the two is
    empty, [psi_calc] returns NaN and the empty table, whatever the
    binning method, the bins and the other arguments are; no exception is
    raised. *)
Theorem psi_calc_empty_sample (X1 X2 : pyinput) (s1 s2 : Series)
    (m : option string) (bins : bins_arg) (fc : bool) (reg : Q) (prec : Z) :
  convert_input X1 msg_invalid_X1 = Ok (PSeries s1) ->
  convert_input X2 msg_invalid_X2 = Ok (PSeries s2) ->
  s_empty s1 = true \/ s_empty s2 = true ->
  psi_calc X1 X2 m bins fc reg prec = Ok (NaN, []).
Proof. apply psi_calc_empty_sample_aux. Qed.

Lemma psi_calc_empty_sample_witness :
  psi_calc (InList (mkSeries d_object [])) (InList sample_1_2_3)
           (Some "equidistant") (BinsInt 10) false (1 # 10000) 3
  = Ok (NaN, []).
Proof.
  apply (psi_calc_empty_sample _ _ (mkSeries d_object []) sample_1_2_3).
  - reflexivity.
  - reflexivity.
  - left. reflexivity.
Defined.

(** ** The type check on sample 2 *)

(** C7, as stated, does not hold: the empty-sample return of lines 64-66
    comes before the assertion of line 70, so a numerical sample 1 with an
    empty sample 2 of another dtype gives NaN and the empty table. *)
Lemma type_check_skipped_for_empty_sample :
  ~ (forall (s1 s2 : Series) (m : option string) (bins : bins_arg)
            (reg : Q) (prec : Z),
        is_numeric_dtype (s_dtype s1) = true ->
        is_numeric_dtype (s_dtype s2) = false ->
        psi_calc (InSeries s1) (InSeries s2) m bins false reg prec
        = Raise TypeMismatch).
Proof.
  intros H.
  specialize (H sample_1_2_3 (mkSeries d_object []) (Some "equidistant")
                (BinsInt 10) (1 # 10000) 3%Z eq_refl eq_refl).
  discriminate H.
Qed.

(** C7, amended.  When neither sample is empty, sample 1 has an integer
    or float dtype, [force_categorical] is false and sample 2 has another
    dtype, [psi_calc] fails with the type mismatch error and returns no
    result. *)
Theorem psi_calc_type_mismatch (X1 X2 : pyinput) (s1 s2 : Series)
    (m : option string) (bins : bins_arg) (reg : Q) (prec : Z) :
  convert_input X1 msg_invalid_X1 = Ok (PSeries s1) ->
  convert_input X2 msg_invalid_X2 = Ok (PSeries s2) ->
  s_empty s1 = false -> s_empty s2 = false ->
  is_numeric_dtype (s_dtype s1) = true ->
  is_numeric_dtype (s_dtype s2) = false ->
  psi_calc X1 X2 m bins false reg prec = Raise TypeMismatch.
Proof.
  intros H1 H2 E1 E2 N1 N2.
  rewrite (psi_calc_nonempty _ _ _ _ _ _ _ _ _ H1 H2 E1 E2).
  unfold categorize. rewrite N1, N2. reflexivity.
Qed.

Lemma psi_calc_type_mismatch_witness :
  psi_calc (InList sample_1_2_3) (InList sample_a_b)
           (Some "equidistant") (BinsInt 10) false (1 # 10000) 3
  = Raise TypeMismatch.
Proof.
  apply (psi_calc_type_mismatch _ _ sample_1_2_3 sample_a_b); reflexivity.
Defined.

Lemma psi_calc_no_check_when_categorical_aux (X1 X2 : pyinput) (s1 s2 : Series)
    (m : option string) (bins : bins_arg) (fc : bool) (reg : Q) (prec : Z) :
  convert_input X1 msg_invalid_X1 = Ok (PSeries s1) ->
  convert_input X2 msg_invalid_X2 = Ok (PSeries s2) ->
  is_numeric_dtype (s_dtype s1) = false \/ fc = true ->
  categorize s1 s2 m bins fc
  = Ok (map raw_key (s_values s1), map raw_key (s_values s2))
  /\ psi_calc X1 X2 m bins fc reg prec
     = Ok (if s_empty s1 || s_empty s2 then (NaN, [])
           else aggregate (map raw_key (s_values s1))
                          (map raw_key (s_values s2)) reg).
Proof.
  intros H1 H2 HC.
  assert (C : categorize s1 s2 m bins fc
              = Ok (map raw_key (s_values s1), map raw_key (s_values s2))).
  { unfold categorize. destruct HC as [HC|HC]; rewrite HC; simpl; auto.
    rewrite andb_false_r. reflexivity. }
  split; [exact C|].
  destruct (s_empty s1) eqn:E1; simpl.
  - apply (psi_calc_empty_sample_aux _ _ s1 s2); auto.
  - destruct (s_empty s2) eqn:E2.
    + apply (psi_calc_empty_sample_aux _ _ s1 s2); auto.
    + rewrite (psi_calc_nonempty _ _ _ _ _ _ _ _ _ H1 H2 E1 E2), C. reflexivity.
Qed.

(** C10.  The check goes one way only.  When sample 1 has no numerical
    dtype, or [force_categorical] is true, the dtype of sample 2 is never
    looked at: [psi_calc] raises nothing, both samples are taken as
    categorical (every raw value its own category) and the PSI value of
    these categories is returned. *)
Theorem psi_calc_no_check_when_categorical (X1 X2 : pyinput) (s1 s2 : Series)
    (m : option string) (bins : bins_arg) (fc : bool) (reg : Q) (prec : Z) :
  convert_input X1 msg_invalid_X1 = Ok (PSeries s1) ->
  convert_input X2 msg_invalid_X2 = Ok (PSeries s2) ->
  is_numeric_dtype (s_dtype s1) = false \/ fc = true ->
  categorize s1 s2 m bins fc
  = Ok (map raw_key (s_values s1), map raw_key (s_values s2))
  /\ psi_calc X1 X2 m bins fc reg prec
     = Ok (if s_empty s1 || s_empty s2 then (NaN, [])
           else aggregate (map raw_key (s_values s1))
                          (map raw_key (s_values s2)) reg).
Proof. apply psi_calc_no_check_when_categorical_aux. Qed.

Lemma psi_calc_no_check_when_categorical_witness :
  categorize sample_a_b sample_1_2_3 (Some "equidistant") (BinsInt 10) false
  = Ok (map raw_key (s_values sample_a_b), map raw_key (s_values sample_1_2_3))
  /\ psi_calc (InList sample_a_b) (InList sample_1_2_3)
              (Some "equidistant") (BinsInt 10) false (1 # 10000) 3
     = Ok (if s_empty sample_a_b || s_empty sample_1_2_3 then (NaN, [])
           else aggregate (map raw_key (s_values sample_a_b))
                          (map raw_key (s_values sample_1_2_3)) (1 # 10000)).
Proof.
  apply (psi_calc_no_check_when_categorical _ _ sample_a_b sample_1_2_3).
  - reflexivity.
  - reflexivity.
  - left. reflexivity.
Defined.

(** ** Configuration errors *)

Lemma bins_to_cuts_no_configuration_error xs bins drop e :
  bins_to_cuts xs bins drop = Raise e -> is_configuration_error e = false.
Proof.
  unfold bins_to_cuts.
  destruct (Nat.ltb _ _ && negb _); [destruct drop|]; simpl;
    try (intros H; inversion H; reflexivity).
  - destruct (unique bins); intros H; inversion H; reflexivity.
  - destruct bins; intros H; inversion H; reflexivity.
Qed.

Lemma nbins_to_bins_no_configuration_error xs n e :
  nbins_to_bins xs n = Raise e -> is_configuration_error e = false.
Proof.
  unfold nbins_to_bins.
  destruct (n <? 1)%Z; [intros H; inversion H; reflexivity|].
  destruct (observed xs); [intros H; inversion H; reflexivity|].
  destruct (Qeq_bool _ _); [discriminate|].
  destruct (linspace _ _ _); discriminate.
Qed.

Lemma pd_cut_no_configuration_error xs bins drop e :
  pd_cut xs bins drop = Raise e -> is_configuration_error e = false.
Proof.
  destruct bins as [n|l|l|]; simpl.
  - destruct (nbins_to_bins xs n) eqn:E; simpl.
    + apply bins_to_cuts_no_configuration_error.
    + intros H; inversion H; subst.
      apply (nbins_to_bins_no_configuration_error _ _ _ E).
  - destruct (is_monotonic_increasing l).
    + apply bins_to_cuts_no_configuration_error.
    + intros H; inversion H; reflexivity.
  - destruct (is_monotonic_increasing l).
    + apply bins_to_cuts_no_configuration_error.
    + intros H; inversion H; reflexivity.
  - intros H; inversion H; reflexivity.
Qed.

Lemma pd_qcut_no_configuration_error xs q e :
  pd_qcut xs q = Raise e -> is_configuration_error e = false.
Proof.
  unfold pd_qcut.
  destruct (q <? 0)%Z; [intros H; inversion H; reflexivity|].
  destruct (observed xs); [intros H; inversion H; reflexivity|].
  apply bins_to_cuts_no_configuration_error.
Qed.

(** The binning of sample 1 fails with a configuration error exactly on
    invalid binning parameters. *)
Lemma bin_expected_configuration_error xs m bins :
  (exists e, bin_expected xs m bins = Raise e /\ is_configuration_error e = true)
  <-> invalid_binning m bins = true.
Proof.
  unfold bin_expected, invalid_binning.
  destruct m as [m|].
  - destruct (String.eqb m "equidistant").
    { split; [|discriminate]. intros [e [H C]].
      rewrite (pd_cut_no_configuration_error _ _ _ _ H) in C. discriminate. }
    destruct (String.eqb m "quantiles").
    + destruct bins as [q|l|l|]; simpl;
        try (split; [reflexivity | intros _; eexists; split; reflexivity]).
      split; [|discriminate]. intros [e [H C]].
      rewrite (pd_qcut_no_configuration_error _ _ _ H) in C. discriminate.
    + split; [reflexivity | intros _; eexists; split; reflexivity].
  - destruct bins as [q|l|l|]; cbn [is_list_or_array negb py_assert bind];
      try (split; [reflexivity | intros _; eexists; split; reflexivity]);
      (split; [|discriminate]); intros [e [H C]];
      rewrite (pd_cut_no_configuration_error _ _ _ _ H) in C; discriminate.
Qed.

(** C8.  For two non-empty samples of numerical dtype treated as
    numerical ([force_categorical] false), [psi_calc] fails with a
    configuration error exactly when the binning parameters are invalid:
    no method and no explicit list of breaks, the method quantiles with
    bins that are not an integer, or a method that is not recognised.
    With valid parameters no configuration error is raised. *)
Theorem psi_calc_configuration_error (X1 X2 : pyinput) (s1 s2 : Series)
    (m : option string) (bins : bins_arg) (reg : Q) (prec : Z) :
  convert_input X1 msg_invalid_X1 = Ok (PSeries s1) ->
  convert_input X2 msg_invalid_X2 = Ok (PSeries s2) ->
  s_empty s1 = false -> s_empty s2 = false ->
  is_numeric_dtype (s_dtype s1) = true ->
  is_numeric_dtype (s_dtype s2) = true ->
  ((exists e, psi_calc X1 X2 m bins false reg prec = Raise e
              /\ is_configuration_error e = true)
   <-> invalid_binning m bins = true).
Proof.
  intros H1 H2 E1 E2 N1 N2.
  rewrite (psi_calc_nonempty _ _ _ _ _ _ _ _ _ H1 H2 E1 E2).
  rewrite <- (bin_expected_configuration_error (s_values s1)).
  unfold categorize. rewrite N1, N2. cbn [andb negb py_assert bind].
  destruct (bin_expected (s_values s1) m bins) as [[c1 breaks]|e1] eqn:B;
    cbn [bind fst snd].
  - split; [|intros [e [H _]]; discriminate H].
    intros [e [H C]].
    destruct (pd_cut (s_values s2) (BinsArray breaks) false) as [r|e2] eqn:P;
      cbn [bind] in H; [discriminate H|].
    inversion H; subst.
    rewrite (pd_cut_no_configuration_error _ _ _ _ P) in C. discriminate.
  - split; intros [e [H C]]; inversion H; subst; exists e; auto.
Qed.

Lemma psi_calc_configuration_error_witness :
  (exists e, psi_calc (InList sample_1_2_3) (InList sample_1_2_3)
                      (Some "quantiles") (BinsList [1; 2]) false (1 # 10000) 3
             = Raise e
             /\ is_configuration_error e = true)
  <-> invalid_binning (Some "quantiles") (BinsList [1; 2]) = true.
Proof.
  apply (psi_calc_configuration_error _ _ sample_1_2_3 sample_1_2_3);
    reflexivity.
Defined.

(** ** The PSI term on positive frequencies *)

Section Term.

Local Open Scope R_scope.

Lemma is_zero_false (a : R) : a <> 0 -> is_zero a = false.
Proof. intros H. unfold is_zero. destruct (Req_dec_T a 0); tauto. Qed.

Lemma is_neg_false (a : R) : 0 <= a -> is_neg a = false.
Proof. intros H. unfold is_neg. destruct (Rlt_dec a 0); auto. lra. Qed.

Lemma divergence_nonneg (a b : R) :
  0 < a -> 0 < b -> 0 <= (a - b) * ln (a / b).
Proof.
  intros Ha Hb.
  assert (Hq : 0 < a / b) by (apply Rdiv_lt_0_compat; assumption).
  destruct (Rtotal_order a b) as [Hlt | [Heq | Hgt]].
  - assert (a / b < 1).
    { apply (Rmult_lt_reg_r b); [assumption|]. unfold Rdiv.
      rewrite Rmult_assoc, Rinv_l; lra. }
    assert (ln (a / b) < 0) by (rewrite <- ln_1; apply ln_increasing; lra).
    replace ((a - b) * ln (a / b)) with ((b - a) * - ln (a / b)) by ring.
    apply Rmult_le_pos; lra.
  - subst. replace (b - b) with 0 by ring. lra.
  - assert (1 < a / b).
    { apply (Rmult_lt_reg_r b); [assumption|]. unfold Rdiv.
      rewrite Rmult_assoc, Rinv_l; lra. }
    assert (0 < ln (a / b)) by (rewrite <- ln_1; apply ln_increasing; lra).
    apply Rmult_le_pos; lra.
Qed.

Lemma divergence_zero_iff (a b : R) :
  0 < a -> 0 < b -> ((a - b) * ln (a / b) = 0 <-> a = b).
Proof.
  intros Ha Hb. split.
  - intros H. apply Rmult_integral in H. destruct H as [H|H]; [lra|].
    assert (Hq : 0 < a / b) by (apply Rdiv_lt_0_compat; assumption).
    rewrite <- ln_1 in H. apply ln_inv in H; [|assumption|lra].
    apply (Rmult_eq_compat_r b) in H. unfold Rdiv in H.
    rewrite Rmult_assoc, Rinv_l in H; lra.
  - intros ->. replace (b - b) with 0 by ring. ring.
Qed.

Lemma psi_term_positive (c : category) (e a : Q) :
  (0 < e)%Q -> (0 < a)%Q ->
  psi_term (mkRow c e a)
  = Fin ((Q2R e - Q2R a) * ln (Q2R e / Q2R a)).
Proof.
  intros He Ha. apply Qlt_Rlt in He, Ha. rewrite RMicromega.Q2R_0 in He, Ha.
  unfold psi_term, float_of_Q; simpl.
  rewrite (is_zero_false (Q2R a)) by lra.
  assert (Hq : 0 < Q2R e / Q2R a) by (apply Rdiv_lt_0_compat; assumption).
  simpl. rewrite (is_zero_false (Q2R e / Q2R a)) by lra.
  rewrite (is_neg_false (Q2R e / Q2R a)) by lra. reflexivity.
Qed.

Lemma py_sum_acc (ts : list R) (acc : R) :
  fold_left fadd (map Fin ts) (Fin acc) = Fin (fold_left Rplus ts acc).
Proof.
  revert acc. induction ts as [|t r IH]; intros acc; simpl; auto.
Qed.

Lemma fold_left_Rplus_nonneg (ts : list R) (acc : R) :
  0 <= acc -> (forall t, In t ts -> 0 <= t) -> 0 <= fold_left Rplus ts acc.
Proof.
  revert acc. induction ts as [|t r IH]; intros acc Hacc H; simpl; auto.
  apply IH.
  - specialize (H t (or_introl eq_refl)). lra.
  - intros u Hu. apply H. right. exact Hu.
Qed.

Lemma fold_left_Rplus_zero (ts : list R) :
  (forall t, In t ts -> t = 0) -> fold_left Rplus ts 0 = 0.
Proof.
  induction ts as [|t r IH]; intros H; simpl; auto.
  rewrite (H t (or_introl eq_refl)), Rplus_0_l. apply IH.
  intros u Hu. apply H. right. exact Hu.
Qed.

End Term.

(** ** Signs of the cells *)

Lemma count_le_length (c : category) (l : list category) :
  (count c l <= List.length l)%nat.
Proof.
  induction l as [|d r IH]; simpl; auto.
  destruct (category_eqb c d); lia.
Qed.

Lemma of_nat_pos (n : nat) : (0 < n)%nat -> 0 < of_nat n.
Proof. intros H. unfold of_nat, Qlt; simpl. lia. Qed.

Lemma of_nat_nonneg (n : nat) : 0 <= of_nat n.
Proof. unfold of_nat, Qle; simpl. lia. Qed.

Lemma freq_of_pos (l : list category) (c : category) :
  (0 < count c l)%nat -> 0 < freq_of l c.
Proof.
  intros H. unfold freq_of.
  assert (L : (0 < List.length l)%nat) by (pose proof (count_le_length c l); lia).
  apply Qlt_shift_div_l; [apply of_nat_pos; exact L|].
  rewrite Qmult_0_l. apply of_nat_pos. exact H.
Qed.

Lemma cell0_cases (l : list category) (c : category) :
  ((0 < count c l)%nat /\ cell0 l c = freq_of l c /\ 0 < cell0 l c)
  \/ (count c l = 0%nat /\ cell0 l c = 0).
Proof.
  unfold cell0. destruct (0 <? count c l)%nat eqn:E.
  - apply Nat.ltb_lt in E. left. auto using freq_of_pos.
  - apply Nat.ltb_ge in E. right. split; [lia | reflexivity].
Qed.

Lemma cell0_nonneg (l : list category) (c : category) : 0 <= cell0 l c.
Proof.
  destruct (cell0_cases l c) as [[_ [_ H]] | [_ H]].
  - apply Qlt_le_weak. exact H.
  - rewrite H. apply Qle_refl.
Qed.

Lemma replace_cell_pos (reg f : Q) :
  0 < reg -> 0 <= f -> 0 < replace_cell 0 reg f.
Proof.
  intros Hr Hf. unfold replace_cell. destruct (Qeq_bool f 0) eqn:E; auto.
  apply Qeq_bool_neq in E. apply Qle_lteq in Hf. destruct Hf as [Hf|Hf]; auto.
  exfalso. apply E. symmetry. exact Hf.
Qed.

Lemma replace_rows (reg : Q) (df : DataFrame) (r : row Q) :
  In r (replace 0 reg df) ->
  exists r0, In r0 df /\ r_key r = r_key r0
             /\ expected r = replace_cell 0 reg (expected r0)
             /\ actual r = replace_cell 0 reg (actual r0).
Proof.
  unfold replace. intros H. apply in_map_iff in H. destruct H as [r0 [<- H0]].
  exists r0. simpl. auto.
Qed.

Lemma df0_row_cells (X1 X2 : list category) (r : row Q) :
  In r (df0_of X1 X2) ->
  In (r_key r) (distinct (X1 ++ X2))
  /\ expected r = cell0 X1 (r_key r) /\ actual r = cell0 X2 (r_key r).
Proof.
  rewrite df0_rows. intros H. apply in_map_iff in H.
  destruct H as [c [<- Hc]]. simpl. auto.
Qed.

(** Every row of the regularised table holds two positive frequencies
    when the regulariser is positive. *)
Lemma df1_positive (X1 X2 : list category) (reg : Q) (r : row Q) :
  0 < reg -> In r (replace 0 reg (df0_of X1 X2)) ->
  0 < expected r /\ 0 < actual r.
Proof.
  intros Hr H. apply replace_rows in H. destruct H as [r0 [H0 [_ [-> ->]]]].
  apply df0_row_cells in H0. destruct H0 as [_ [-> ->]].
  split; apply replace_cell_pos; auto using cell0_nonneg.
Qed.

Lemma psi_term_nonneg (r : row Q) :
  0 < expected r -> 0 < actual r ->
  exists t : R, psi_term r = Fin t /\ (0 <= t)%R
                /\ (t = 0%R <-> expected r == actual r).
Proof.
  intros He Ha. destruct r as [c e a]; simpl in *.
  exists ((Q2R e - Q2R a) * ln (Q2R e / Q2R a))%R.
  pose proof (Qlt_Rlt _ _ He) as He'. pose proof (Qlt_Rlt _ _ Ha) as Ha'.
  rewrite RMicromega.Q2R_0 in He', Ha'.
  split; [apply psi_term_positive; assumption|].
  split; [apply divergence_nonneg; assumption|].
  rewrite divergence_zero_iff by assumption.
  split; [apply eqR_Qeq | apply Qeq_eqR].
Qed.

Lemma py_sum_nonneg (l : list float) :
  (forall x, In x l -> exists t : R, x = Fin t /\ (0 <= t)%R) ->
  exists p : R, py_sum l = Fin p /\ (0 <= p)%R.
Proof.
  intros H.
  assert (E : exists ts, l = map Fin ts /\ forall t, In t ts -> (0 <= t)%R).
  { induction l as [|x r IH].
    - exists []. split; [reflexivity | intros t []].
    - destruct (H x (or_introl eq_refl)) as [t [-> Ht]].
      destruct IH as [ts [-> Hts]]; [intros y Hy; apply H; right; exact Hy|].
      exists (t :: ts). split; [reflexivity|].
      intros u [<-|Hu]; auto. }
  destruct E as [ts [-> Hts]]. unfold py_sum. rewrite py_sum_acc.
  eexists. split; [reflexivity|].
  apply fold_left_Rplus_nonneg; [apply Rle_refl | exact Hts].
Qed.

(** Non-negativity on the level of the category sequences. *)
Lemma aggregate_nonneg (X1 X2 : list category) (reg : Q) :
  0 < reg ->
  (forall r, In r (replace 0 reg (snd (aggregate X1 X2 reg))) ->
     exists t : R, psi_term r = Fin t /\ (0 <= t)%R
                   /\ (t = 0%R <-> expected r == actual r))
  /\ exists p : R, fst (aggregate X1 X2 reg) = Fin p /\ (0 <= p)%R.
Proof.
  intros Hr. rewrite aggregate_unfold. simpl.
  assert (T : forall r, In r (replace 0 reg (df0_of X1 X2)) ->
     exists t : R, psi_term r = Fin t /\ (0 <= t)%R
                   /\ (t = 0%R <-> expected r == actual r)).
  { intros r H. destruct (df1_positive _ _ _ _ Hr H).
    apply psi_term_nonneg; assumption. }
  split; [exact T|].
  apply py_sum_nonneg. intros x Hx. apply in_map_iff in Hx.
  destruct Hx as [r [<- Hrow]]. destruct (T r Hrow) as [t [E [P _]]].
  exists t. auto.
Qed.

(** ** Non-negativity *)

(** C4.  For two non-empty samples and a positive regulariser, every term
    [(expected - actual) * ln (expected / actual)] computed on the
    regularised frequencies is a real number that is at least 0, and it is
    0 exactly when the two regularised frequencies are equal; the PSI
    value, their sum, is therefore at least 0. *)
Theorem psi_calc_nonnegative (X1 X2 : pyinput) (s1 s2 : Series)
    (m : option string) (bins : bins_arg) (fc : bool) (reg : Q) (prec : Z)
    (psi : float) (tbl : DataFrame) :
  convert_input X1 msg_invalid_X1 = Ok (PSeries s1) ->
  convert_input X2 msg_invalid_X2 = Ok (PSeries s2) ->
  s_empty s1 = false -> s_empty s2 = false ->
  0 < reg ->
  psi_calc X1 X2 m bins fc reg prec = Ok (psi, tbl) ->
  (forall r, In r (replace 0 reg tbl) ->
     exists t : R, psi_term r = Fin t /\ (0 <= t)%R
                   /\ (t = 0%R <-> expected r == actual r))
  /\ psi = py_sum (map psi_term (replace 0 reg tbl))
  /\ exists p : R, psi = Fin p /\ (0 <= p)%R.
Proof.
  intros H1 H2 E1 E2 Hr H.
  rewrite (psi_calc_nonempty _ _ _ _ _ _ _ _ _ H1 H2 E1 E2) in H.
  destruct (categorize s1 s2 m bins fc) as [[c1 c2]|e]; [|discriminate H].
  cbn [bind fst snd] in H.
  assert (A : aggregate c1 c2 reg = (psi, tbl)) by congruence.
  destruct (aggregate_nonneg c1 c2 reg Hr) as [T P].
  rewrite A in T, P. cbn [fst snd] in T, P.
  split; [exact T|]. split; [|exact P].
  rewrite aggregate_unfold in A. inversion A. reflexivity.
Qed.

Lemma psi_calc_nonnegative_witness :
  (forall r, In r (replace 0 (1 # 10000)
                     (snd (aggregate cats_11122 cats_11111 (1 # 10000)))) ->
     exists t : R, psi_term r = Fin t /\ (0 <= t)%R
                   /\ (t = 0%R <-> expected r == actual r))
  /\ fst (aggregate cats_11122 cats_11111 (1 # 10000))
     = py_sum (map psi_term
                 (replace 0 (1 # 10000)
                    (snd (aggregate cats_11122 cats_11111 (1 # 10000)))))
  /\ exists p : R, fst (aggregate cats_11122 cats_11111 (1 # 10000)) = Fin p
                   /\ (0 <= p)%R.
Proof.
  apply (psi_calc_nonnegative (InList sample_11122) (InList sample_11111)
           sample_11122 sample_11111 (Some "equidistant") (BinsInt 10) true
           (1 # 10000) 3).
  - reflexivity.
  - reflexivity.
  - reflexivity.
  - reflexivity.
  - reflexivity.
  - reflexivity.
Defined.

(** ** The PSI value as the specification words it *)

Lemma freq_of_zero (l : list category) (c : category) :
  count c l = 0%nat -> freq_of l c == 0.
Proof.
  intros H. unfold freq_of. rewrite H. unfold Qdiv. apply Qmult_0_l.
Qed.

Lemma cell0_freq (l : list category) (c : category) : cell0 l c == freq_of l c.
Proof.
  destruct (cell0_cases l c) as [[_ [-> _]] | [H ->]].
  - apply Qeq_refl.
  - symmetry. apply freq_of_zero. exact H.
Qed.

Lemma replace_cell0 (reg : Q) (l : list category) (c : category) :
  replace_cell 0 reg (cell0 l c) = spec_regularised reg (spec_frequency l c).
Proof.
  change (spec_frequency l c) with (freq_of l c).
  unfold replace_cell, spec_regularised.
  destruct (cell0_cases l c) as [[_ [-> _]] | [H ->]]; auto.
  apply freq_of_zero in H. apply Qeq_bool_iff in H. rewrite H. reflexivity.
Qed.

Lemma aggregate_spec_psi (X1 X2 : list category) (reg : Q) :
  fst (aggregate X1 X2 reg) = spec_psi X1 X2 reg.
Proof.
  rewrite aggregate_unfold. cbn [fst]. unfold spec_psi, spec_categories.
  rewrite df0_rows. unfold replace. rewrite !map_map. f_equal.
  apply map_ext. intros c. unfold psi_term, spec_term. cbn [expected actual].
  rewrite !replace_cell0. reflexivity.
Qed.

Lemma df0_keys (X1 X2 : list category) :
  map r_key (df0_of X1 X2) = spec_categories X1 X2.
Proof.
  rewrite df0_rows, map_map. cbn [r_key]. apply map_id.
Qed.

(** What a successful call on two non-empty Series computes. *)
Lemma psi_calc_result (X1 X2 : pyinput) (s1 s2 : Series)
    (m : option string) (bins : bins_arg) (fc : bool) (reg : Q) (prec : Z)
    (psi : float) (tbl : DataFrame) :
  convert_input X1 msg_invalid_X1 = Ok (PSeries s1) ->
  convert_input X2 msg_invalid_X2 = Ok (PSeries s2) ->
  s_empty s1 = false -> s_empty s2 = false ->
  psi_calc X1 X2 m bins fc reg prec = Ok (psi, tbl) ->
  exists c1 c2, categorize s1 s2 m bins fc = Ok (c1, c2)
                /\ psi = fst (aggregate c1 c2 reg) /\ tbl = df0_of c1 c2.
Proof.
  intros H1 H2 E1 E2 H.
  rewrite (psi_calc_nonempty _ _ _ _ _ _ _ _ _ H1 H2 E1 E2) in H.
  destruct (categorize s1 s2 m bins fc) as [[c1 c2]|e]; [|discriminate H].
  cbn [bind fst snd] in H. exists c1, c2. split; [reflexivity|].
  rewrite aggregate_unfold in *. inversion H. split; reflexivity.
Qed.

(** C1.  For two non-empty samples the PSI value returned by [psi_calc]
    is the sum, over the union of the categories observed in the two
    samples, of [(expected - actual) * ln (expected / actual)] taken on the
    regularised frequencies (a cell equal to exactly 0.0 replaced by the
    regulariser, other cells unchanged); the table returned next to it is
    the unregularised one: its rows are the categories of the union, its
    cells the frequencies, and a category absent from a sample shows 0.0
    there, not the regulariser. *)
Theorem psi_calc_regularised_sum (X1 X2 : pyinput) (s1 s2 : Series)
    (m : option string) (bins : bins_arg) (fc : bool) (reg : Q) (prec : Z)
    (psi : float) (tbl : DataFrame) :
  convert_input X1 msg_invalid_X1 = Ok (PSeries s1) ->
  convert_input X2 msg_invalid_X2 = Ok (PSeries s2) ->
  s_empty s1 = false -> s_empty s2 = false ->
  psi_calc X1 X2 m bins fc reg prec = Ok (psi, tbl) ->
  exists c1 c2,
    categorize s1 s2 m bins fc = Ok (c1, c2)
    /\ psi = spec_psi c1 c2 reg
    /\ map r_key tbl = spec_categories c1 c2
    /\ forall r, In r tbl ->
         expected r == spec_frequency c1 (r_key r)
         /\ actual r == spec_frequency c2 (r_key r)
         /\ (~ In (r_key r) c1 -> expected r = 0)
         /\ (~ In (r_key r) c2 -> actual r = 0).
Proof.
  intros H1 H2 E1 E2 H.
  destruct (psi_calc_result _ _ _ _ _ _ _ _ _ _ _ H1 H2 E1 E2 H)
    as [c1 [c2 [C [-> ->]]]].
  exists c1, c2. split; [exact C|]. split; [apply aggregate_spec_psi|].
  split; [apply df0_keys|].
  intros r Hr. apply df0_row_cells in Hr. destruct Hr as [_ [-> ->]].
  split; [apply cell0_freq|]. split; [apply cell0_freq|].
  split; intros N; apply count_zero_iff in N; unfold cell0; rewrite N; reflexivity.
Qed.

Lemma psi_calc_regularised_sum_witness :
  exists c1 c2,
    categorize sample_11122 sample_11111 (Some "equidistant") (BinsInt 10) true
    = Ok (c1, c2)
    /\ fst (aggregate cats_11122 cats_11111 (1 # 10000))
       = spec_psi c1 c2 (1 # 10000)
    /\ map r_key (snd (aggregate cats_11122 cats_11111 (1 # 10000)))
       = spec_categories c1 c2
    /\ forall r, In r (snd (aggregate cats_11122 cats_11111 (1 # 10000))) ->
         expected r == spec_frequency c1 (r_key r)
         /\ actual r == spec_frequency c2 (r_key r)
         /\ (~ In (r_key r) c1 -> expected r = 0)
         /\ (~ In (r_key r) c2 -> actual r = 0).
Proof.
  apply (psi_calc_regularised_sum (InList sample_11122) (InList sample_11111)
           sample_11122 sample_11111 (Some "equidistant") (BinsInt 10) true
           (1 # 10000) 3); reflexivity.
Defined.

(** The example of the specification: category 2 is absent from the actual
    sample; the returned table shows 0.0 for it, the sum uses 0.0001. *)
Example regularisation_example :
  map (fun r => (r_key r, Qred (expected r), Qred (actual r)))
      (snd (aggregate cats_11122 cats_11111 (1 # 10000)))
  = [(CatRaw (VNum 1), 3 # 5, 1); (CatRaw (VNum 2), 2 # 5, 0)]
  /\ map (fun r => (r_key r, Qred (expected r), Qred (actual r)))
         (replace 0 (1 # 10000)
            (snd (aggregate cats_11122 cats_11111 (1 # 10000))))
     = [(CatRaw (VNum 1), 3 # 5, 1); (CatRaw (VNum 2), 2 # 5, 1 # 10000)].
Proof. split; reflexivity. Qed.

(** ** Column sums *)

Lemma sum_indicator (d : category) (ks : list category) :
  NoDup ks -> In d ks ->
  fold_right (fun c acc => ((if category_eqb c d then 1 else 0) + acc)%nat)
             0%nat ks = 1%nat.
Proof.
  intros N. induction N as [|k ks Hk N IH]; intros Hd; [destruct Hd|].
  simpl. destruct (category_eqb k d) eqn:E.
  - apply category_eqb_eq in E. subst k. f_equal.
    clear IH Hd N. induction ks as [|a t IHt]; simpl; auto.
    destruct (category_eqb a d) eqn:F.
    + apply category_eqb_eq in F. subst a. exfalso. apply Hk. left. reflexivity.
    + apply IHt. intros H. apply Hk. right. exact H.
  - apply category_eqb_neq in E. destruct Hd as [Hd|Hd]; [congruence|].
    simpl. apply IH. exact Hd.
Qed.

Lemma sum_counts_cons (ks : list category) (d : category) (l : list category) :
  sum_counts ks (d :: l)
  = (fold_right (fun c acc => ((if category_eqb c d then 1 else 0) + acc)%nat)
                0%nat ks
     + sum_counts ks l)%nat.
Proof.
  unfold sum_counts. induction ks as [|k t IH]; cbn [fold_right]; auto.
  rewrite IH. cbn [count]. destruct (category_eqb k d); lia.
Qed.

Lemma sum_counts_nil (ks : list category) : sum_counts ks [] = 0%nat.
Proof. unfold sum_counts. induction ks as [|k t IH]; simpl; auto. Qed.

(** The counts of all categories add up to the length of the sample. *)
Lemma sum_counts_length (ks l : list category) :
  NoDup ks -> (forall c, In c l -> In c ks) ->
  sum_counts ks l = List.length l.
Proof.
  intros N. induction l as [|d r IH]; intros H.
  - apply sum_counts_nil.
  - rewrite sum_counts_cons, sum_indicator; auto.
    + simpl. f_equal. apply IH. intros c Hc. apply H. right. exact Hc.
    + apply H. left. reflexivity.
Qed.

Lemma of_nat_add (a b : nat) : of_nat (a + b) == of_nat a + of_nat b.
Proof. unfold of_nat. rewrite Nat2Z.inj_add, inject_Z_plus. reflexivity. Qed.

Lemma sum_freq_of (ks l : list category) :
  fold_right (fun c acc => freq_of l c + acc) 0 ks
  == of_nat (sum_counts ks l) / of_nat (List.length l).
Proof.
  induction ks as [|k t IH]; simpl.
  - unfold Qdiv. rewrite Qmult_0_l. reflexivity.
  - rewrite IH. unfold freq_of. rewrite of_nat_add. unfold Qdiv. ring.
Qed.

Lemma col_sum_cells (X : list category) (col : row Q -> Q)
    (mk : category -> row Q) (ks : list category) :
  (forall c, col (mk c) = cell0 X c) ->
  col_sum col (map mk ks) == fold_right (fun c acc => freq_of X c + acc) 0 ks.
Proof.
  intros H. unfold col_sum. induction ks as [|k t IH]; simpl.
  - reflexivity.
  - rewrite IH, H, cell0_freq. reflexivity.
Qed.

Lemma col_sum_one (X : list category) (col : row Q -> Q)
    (mk : category -> row Q) (ks : list category) :
  (forall c, col (mk c) = cell0 X c) ->
  X <> [] -> NoDup ks -> (forall c, In c X -> In c ks) ->
  col_sum col (map mk ks) == 1.
Proof.
  intros H NE N Hin.
  rewrite (col_sum_cells X), sum_freq_of, sum_counts_length by assumption.
  apply Qmult_inv_r. intros Z.
  assert (P : 0 < of_nat (List.length X)).
  { apply of_nat_pos. destruct X; [congruence | simpl; lia]. }
  rewrite Z in P. apply (Qlt_irrefl 0). exact P.
Qed.

Lemma df0_sums (X1 X2 : list category) :
  X1 <> [] -> X2 <> [] ->
  col_sum expected (df0_of X1 X2) == 1 /\ col_sum actual (df0_of X1 X2) == 1.
Proof.
  intros N1 N2. rewrite df0_rows.
  split.
  - apply (col_sum_one X1); auto using distinct_NoDup.
    intros c Hc. apply distinct_In, in_or_app. left. exact Hc.
  - apply (col_sum_one X2); auto using distinct_NoDup.
    intros c Hc. apply distinct_In, in_or_app. right. exact Hc.
Qed.

(** ** What a successful cut returns *)

Lemma bins_to_cuts_inv xs bins drop cats bins' :
  bins_to_cuts xs bins drop = Ok (cats, bins') ->
  exists b0 rest,
    bins' = b0 :: rest
    /\ cats = map (bin_of bins' b0) xs
    /\ (bins' = bins \/ (drop = true /\ bins' = unique bins)).
Proof.
  unfold bins_to_cuts.
  destruct (Nat.ltb _ _ && negb _); [destruct drop|]; cbn [bind];
    try discriminate.
  - destruct (unique bins) as [|b0 rest] eqn:U; [discriminate|].
    intros H. inversion H; subst. exists b0, rest. auto.
  - destruct bins as [|b0 rest]; [discriminate|].
    intros H. inversion H; subst. exists b0, rest. auto.
Qed.

Lemma pd_cut_inv xs bins drop cats bins' :
  pd_cut xs bins drop = Ok (cats, bins') ->
  exists bins0,
    bins_to_cuts xs bins0 drop = Ok (cats, bins')
    /\ match bins with
       | BinsInt n => nbins_to_bins xs n = Ok bins0
       | BinsList l | BinsArray l =>
           bins0 = l /\ is_monotonic_increasing l = true
       | BinsNone => False
       end.
Proof.
  destruct bins as [n|l|l|]; cbn [pd_cut].
  - destruct (nbins_to_bins xs n) as [b|e]; cbn [bind]; [|discriminate].
    intros H. exists b. auto.
  - destruct (is_monotonic_increasing l); [|discriminate].
    intros H. exists l. auto.
  - destruct (is_monotonic_increasing l); [|discriminate].
    intros H. exists l. auto.
  - discriminate.
Qed.

Lemma pd_qcut_inv xs q cats bins' :
  pd_qcut xs q = Ok (cats, bins') ->
  (0 <= q)%Z /\ observed xs <> []
  /\ bins_to_cuts xs (map (quantile (sort (observed xs)))
                          (linspace 0 1 (Z.to_nat q))) true
     = Ok (cats, bins').
Proof.
  unfold pd_qcut. destruct (q <? 0)%Z eqn:E; [discriminate|].
  apply Z.ltb_ge in E.
  destruct (observed xs) as [|o os]; [discriminate|].
  intros H. split; [exact E|]. split; [discriminate | exact H].
Qed.

Lemma bin_expected_inv xs m bins cats breaks :
  bin_expected xs m bins = Ok (cats, breaks) ->
  exists bins0, bins_to_cuts xs bins0 true = Ok (cats, breaks).
Proof.
  unfold bin_expected. destruct m as [m|].
  - destruct (String.eqb m "equidistant").
    { intros H. apply pd_cut_inv in H. destruct H as [b [H _]]. eauto. }
    destruct (String.eqb m "quantiles"); [|discriminate].
    destruct bins as [q|l|l|]; try discriminate.
    intros H. apply pd_qcut_inv in H. destruct H as [_ [_ H]]. eauto.
  - destruct (is_list_or_array bins); cbn [py_assert bind]; [|discriminate].
    intros H. apply pd_cut_inv in H. destruct H as [b [H _]]. eauto.
Qed.

Lemma bins_to_cuts_length xs bins drop cats bins' :
  bins_to_cuts xs bins drop = Ok (cats, bins') ->
  List.length cats = List.length xs.
Proof.
  intros H. apply bins_to_cuts_inv in H.
  destruct H as [b0 [rest [_ [-> _]]]]. apply length_map.
Qed.

(** Categorising keeps one category per element. *)
Lemma categorize_length s1 s2 m bins fc c1 c2 :
  categorize s1 s2 m bins fc = Ok (c1, c2) ->
  List.length c1 = s_len s1 /\ List.length c2 = s_len s2.
Proof.
  unfold categorize, s_len.
  destruct (is_numeric_dtype (s_dtype s1) && negb fc).
  - destruct (is_numeric_dtype (s_dtype s2)); cbn [py_assert bind]; [|discriminate].
    destruct (bin_expected _ _ _) as [[cats1 breaks]|e] eqn:B;
      cbn [bind fst snd]; [|discriminate].
    destruct (pd_cut _ _ _) as [[cats2 breaks2]|e] eqn:P;
      cbn [bind fst snd]; [|discriminate].
    intros H. inversion H; subst. rewrite !length_map.
    apply bin_expected_inv in B. destruct B as [b0 B].
    apply pd_cut_inv in P. destruct P as [b1 [P _]].
    split; eapply bins_to_cuts_length; eauto.
  - intros H. inversion H; subst. rewrite !length_map. auto.
Qed.

Lemma nonempty_length {A : Type} (l : list A) :
  (0 < List.length l)%nat -> l <> [].
Proof. destruct l; simpl; [lia | discriminate]. Qed.

Lemma s_empty_false (s : Series) : s_empty s = false -> (0 < s_len s)%nat.
Proof.
  unfold s_empty, s_len. destruct (s_values s); [discriminate | simpl; lia].
Qed.

(** ** The frequency table *)

(** C6.  In the table returned for two non-empty samples every observed
    category has a row; in each row the frequency of a sample is the count
    of that category in the (categorised) sample divided by the length of
    the sample when the category was observed there, and exactly 0.0 when
    it was not; every frequency is at least 0; and each of the two columns
    sums to 1. *)
Theorem psi_calc_frequency_table (X1 X2 : pyinput) (s1 s2 : Series)
    (m : option string) (bins : bins_arg) (fc : bool) (reg : Q) (prec : Z)
    (psi : float) (tbl : DataFrame) :
  convert_input X1 msg_invalid_X1 = Ok (PSeries s1) ->
  convert_input X2 msg_invalid_X2 = Ok (PSeries s2) ->
  s_empty s1 = false -> s_empty s2 = false ->
  psi_calc X1 X2 m bins fc reg prec = Ok (psi, tbl) ->
  exists c1 c2,
    categorize s1 s2 m bins fc = Ok (c1, c2)
    /\ (forall c, In c c1 \/ In c c2 -> exists r, In r tbl /\ r_key r = c)
    /\ (forall r, In r tbl ->
          (In (r_key r) c1 ->
             expected r = of_nat (count (r_key r) c1) / of_nat (s_len s1))
          /\ (In (r_key r) c2 ->
                actual r = of_nat (count (r_key r) c2) / of_nat (s_len s2))
          /\ (~ In (r_key r) c1 -> expected r = 0)
          /\ (~ In (r_key r) c2 -> actual r = 0)
          /\ 0 <= expected r /\ 0 <= actual r)
    /\ col_sum expected tbl == 1
    /\ col_sum actual tbl == 1.
Proof.
  intros H1 H2 E1 E2 H.
  destruct (psi_calc_result _ _ _ _ _ _ _ _ _ _ _ H1 H2 E1 E2 H)
    as [c1 [c2 [C [_ ->]]]].
  destruct (categorize_length _ _ _ _ _ _ _ C) as [L1 L2].
  exists c1, c2. split; [exact C|]. split; [|split].
  - intros c Hc. rewrite df0_rows.
    exists (mkRow c (cell0 c1 c) (cell0 c2 c)). split; [|reflexivity].
    apply in_map_iff. exists c. split; [reflexivity|].
    apply distinct_In, in_or_app. exact Hc.
  - intros r Hr. apply df0_row_cells in Hr. destruct Hr as [_ [-> ->]].
    rewrite <- L1, <- L2.
    repeat split; try apply cell0_nonneg; intros N; unfold cell0.
    + apply count_pos_iff, Nat.ltb_lt in N. rewrite N. reflexivity.
    + apply count_pos_iff, Nat.ltb_lt in N. rewrite N. reflexivity.
    + apply count_zero_iff in N. rewrite N. reflexivity.
    + apply count_zero_iff in N. rewrite N. reflexivity.
  - apply df0_sums; apply nonempty_length.
    + rewrite L1. apply s_empty_false. exact E1.
    + rewrite L2. apply s_empty_false. exact E2.
Qed.

Example main_call_equidistant_table :
  main_call_equidistant = Ok main_result_equidistant
  /\ map (fun r => (r_key r, Qred (expected r), Qred (actual r)))
         (snd main_result_equidistant)
     = [(CatInterval (497 # 500) 3, 4 # 7, 11 # 20);
        (CatInterval 3 5, 2 # 7, 1 # 4);
        (CatInterval 5 7, 2 # 21, 1 # 20);
        (CatNan, 1 # 21, 3 # 20)].
Proof. split; reflexivity. Qed.

Lemma psi_calc_frequency_table_witness :
  exists c1 c2,
    categorize main_X1 main_X2 (Some "equidistant") (BinsInt 3) false
    = Ok (c1, c2)
    /\ (forall c, In c c1 \/ In c c2 ->
          exists r, In r (snd main_result_equidistant) /\ r_key r = c)
    /\ (forall r, In r (snd main_result_equidistant) ->
          (In (r_key r) c1 ->
             expected r = of_nat (count (r_key r) c1) / of_nat (s_len main_X1))
          /\ (In (r_key r) c2 ->
                actual r = of_nat (count (r_key r) c2) / of_nat (s_len main_X2))
          /\ (~ In (r_key r) c1 -> expected r = 0)
          /\ (~ In (r_key r) c2 -> actual r = 0)
          /\ 0 <= expected r /\ 0 <= actual r)
    /\ col_sum expected (snd main_result_equidistant) == 1
    /\ col_sum actual (snd main_result_equidistant) == 1.
Proof.
  apply (psi_calc_frequency_table (InArray 1 main_X1) (InArray 1 main_X2)
           main_X1 main_X2 (Some "equidistant") (BinsInt 3) false
           (1 # 10000) 3 (fst main_result_equidistant)).
  - reflexivity.
  - reflexivity.
  - reflexivity.
  - reflexivity.
  - reflexivity.
Defined.

(** ** Monotonic edges *)

Lemma mono_cons (x : Q) (l : list Q) :
  is_monotonic_increasing (x :: l) = true
  <-> (forall y, In y l -> x <= y) /\ is_monotonic_increasing l = true.
Proof.
  revert x. induction l as [|a r IH]; intros x.
  - simpl. split; [intros _; split; [intros y []|reflexivity] | reflexivity].
  - change (is_monotonic_increasing (x :: a :: r))
      with (Qle_bool x a && is_monotonic_increasing (a :: r)).
    rewrite andb_true_iff, Qle_bool_iff. split.
    + intros [Hxa Hm]. split; [|exact Hm].
      intros y [<-|Hy]; [exact Hxa|].
      apply IH in Hm. destruct Hm as [Hm _].
      apply Qle_trans with a; auto.
    + intros [Hall Hm]. split; [apply Hall; left; reflexivity | exact Hm].
Qed.

Lemma mono_tail (x : Q) (l : list Q) :
  is_monotonic_increasing (x :: l) = true -> is_monotonic_increasing l = true.
Proof. intros H. apply mono_cons in H. tauto. Qed.

Lemma mono_filter (f : Q -> bool) (l : list Q) :
  is_monotonic_increasing l = true ->
  is_monotonic_increasing (filter f l) = true.
Proof.
  induction l as [|a r IH]; intros H; [reflexivity|].
  apply mono_cons in H. destruct H as [Hall Hm]. cbn [filter].
  destruct (f a); [|auto].
  apply mono_cons. split; [|auto].
  intros y Hy. apply filter_In in Hy. apply Hall. tauto.
Qed.

Lemma unique_In (x : Q) (l : list Q) : In x (unique l) -> In x l.
Proof.
  revert x. induction l as [|a r IH]; intros x; [auto|].
  cbn [unique]. intros [<-|H]; [left; reflexivity|].
  apply filter_In in H. right. apply IH. tauto.
Qed.

Lemma mono_unique (l : list Q) :
  is_monotonic_increasing l = true ->
  is_monotonic_increasing (unique l) = true.
Proof.
  induction l as [|a r IH]; intros H; [reflexivity|].
  apply mono_cons in H. destruct H as [Hall Hm]. cbn [unique].
  apply mono_cons. split.
  - intros y Hy. apply filter_In in Hy. apply Hall, unique_In. tauto.
  - apply mono_filter. auto.
Qed.

Lemma mono_map_seq (f : nat -> Q) (s k : nat) :
  (forall i j, (i <= j)%nat -> f i <= f j) ->
  is_monotonic_increasing (map f (seq s k)) = true.
Proof.
  intros Hf. revert s. induction k as [|k IH]; intros s; [reflexivity|].
  cbn [seq map]. apply mono_cons. split; [|apply IH].
  intros y Hy. apply in_map_iff in Hy. destruct Hy as [j [<- Hj]].
  apply in_seq in Hj. apply Hf. lia.
Qed.

Lemma of_nat_le (i j : nat) : (i <= j)%nat -> of_nat i <= of_nat j.
Proof. intros H. unfold of_nat. rewrite <- Zle_Qle. lia. Qed.

Lemma step_nonneg (a b : Q) (n : nat) : a <= b -> 0 <= (b - a) / of_nat n.
Proof.
  intros H. unfold Qdiv. apply Qmult_le_0_compat; [lra|].
  apply Qinv_le_0_compat, of_nat_nonneg.
Qed.

Lemma linspace_mono (a b : Q) (n : nat) :
  a <= b -> is_monotonic_increasing (linspace a b n) = true.
Proof.
  intros H. unfold linspace. apply mono_map_seq. intros i j Hij.
  pose proof (step_nonneg a b n H) as Hs. pose proof (of_nat_le i j Hij) as Ho.
  nra.
Qed.

Lemma mono_lower_head (x x' : Q) (l : list Q) :
  x' <= x -> is_monotonic_increasing (x :: l) = true ->
  is_monotonic_increasing (x' :: l) = true.
Proof.
  intros Hx H. apply mono_cons in H. destruct H as [Hall Hm].
  apply mono_cons. split; [|exact Hm].
  intros y Hy. apply Qle_trans with x; auto.
Qed.

Lemma qmin_le_l (a b : Q) : qmin a b <= a.
Proof.
  unfold qmin. destruct (Qle_bool a b) eqn:E; [apply Qle_refl|].
  destruct (Qlt_le_dec b a) as [H|H]; [apply Qlt_le_weak; exact H|].
  apply Qle_bool_iff in H. congruence.
Qed.

Lemma qmin_le_r (a b : Q) : qmin a b <= b.
Proof.
  unfold qmin. destruct (Qle_bool a b) eqn:E; [|apply Qle_refl].
  apply Qle_bool_iff. exact E.
Qed.

Lemma qmax_ge_l (a b : Q) : a <= qmax a b.
Proof.
  unfold qmax. destruct (Qle_bool a b) eqn:E; [|apply Qle_refl].
  apply Qle_bool_iff. exact E.
Qed.

Lemma qmax_ge_r (a b : Q) : b <= qmax a b.
Proof.
  unfold qmax. destruct (Qle_bool a b) eqn:E; [apply Qle_refl|].
  destruct (Qlt_le_dec b a) as [H|H]; [apply Qlt_le_weak; exact H|].
  apply Qle_bool_iff in H. congruence.
Qed.

Lemma fold_qmin_le (l : list Q) (a e : Q) :
  e = a \/ In e l -> fold_left qmin l a <= e.
Proof.
  revert a e. induction l as [|x r IH]; intros a e H; cbn [fold_left].
  - destruct H as [->|[]]. apply Qle_refl.
  - destruct H as [->|[<-|H]].
    + apply Qle_trans with (qmin a x); [apply IH; auto | apply qmin_le_l].
    + apply Qle_trans with (qmin a x); [apply IH; auto | apply qmin_le_r].
    + apply IH. auto.
Qed.

Lemma fold_qmax_ge (l : list Q) (a e : Q) :
  e = a \/ In e l -> e <= fold_left qmax l a.
Proof.
  revert a e. induction l as [|x r IH]; intros a e H; cbn [fold_left].
  - destruct H as [->|[]]. apply Qle_refl.
  - destruct H as [->|[<-|H]].
    + apply Qle_trans with (qmax a x); [apply qmax_ge_l | apply IH; auto].
    + apply Qle_trans with (qmax a x); [apply qmax_ge_r | apply IH; auto].
    + apply IH. auto.
Qed.

(** The edges computed from a number of bins increase. *)
Lemma nbins_to_bins_mono xs n b :
  nbins_to_bins xs n = Ok b -> is_monotonic_increasing b = true.
Proof.
  unfold nbins_to_bins. destruct (n <? 1)%Z; [discriminate|].
  destruct (observed xs) as [|o os]; [discriminate|].
  set (mn := fold_left qmin os o). set (mx := fold_left qmax os o).
  assert (Hmm : mn <= mx).
  { apply Qle_trans with o; [apply fold_qmin_le | apply fold_qmax_ge]; auto. }
  destruct (Qeq_bool mn mx).
  - intros H. inversion H. apply linspace_mono.
    assert (0 <= (if Qeq_bool mn 0 then 1 # 1000 else (1 # 1000) * Qabs mn)).
    { destruct (Qeq_bool mn 0); [discriminate|].
      pose proof (Qabs_nonneg mn). nra. }
    assert (0 <= (if Qeq_bool mx 0 then 1 # 1000 else (1 # 1000) * Qabs mx)).
    { destruct (Qeq_bool mx 0); [discriminate|].
      pose proof (Qabs_nonneg mx). nra. }
    lra.
  - pose proof (linspace_mono mn mx (Z.to_nat n) Hmm) as L.
    destruct (linspace mn mx (Z.to_nat n)) as [|b0 r]; intros H; inversion H.
    + reflexivity.
    + apply (mono_lower_head b0); [nra | exact L].
Qed.

(** ** Duplicated edges *)

Lemma unique_filter (f : Q -> bool) (l : list Q) :
  (forall x y, x == y -> f x = f y) ->
  unique (filter f l) = filter f (unique l).
Proof.
  intros Hf. induction l as [|a r IH]; [reflexivity|].
  cbn [unique filter]. destruct (f a) eqn:Fa.
  - cbn [unique]. rewrite IH. f_equal. apply filter_filter_comm.
  - rewrite IH, filter_filter_andb. apply filter_ext. intros y.
    destruct (Qeq_bool a y) eqn:E; [|reflexivity].
    apply Qeq_bool_iff, Hf in E. cbn. congruence.
Qed.

Lemma unique_idem (l : list Q) : unique (unique l) = unique l.
Proof.
  induction l as [|a r IH]; [reflexivity|].
  cbn [unique]. rewrite unique_filter.
  - rewrite IH, filter_filter_andb. f_equal. apply filter_ext. intros y.
    apply andb_diag.
  - intros x y H. f_equal. destruct (Qeq_bool a x) eqn:E.
    + apply Qeq_bool_iff in E. symmetry. apply Qeq_bool_iff.
      apply Qeq_trans with x; assumption.
    + destruct (Qeq_bool a y) eqn:E'; [|reflexivity].
      apply Qeq_bool_iff in E'. apply Qeq_bool_neq in E. exfalso. apply E.
      apply Qeq_trans with y; [assumption | symmetry; assumption].
Qed.

(** ** Sorting and quantiles *)

Lemma insert_sorted_In (x y : Q) (l : list Q) :
  In y (insert_sorted x l) -> y = x \/ In y l.
Proof.
  induction l as [|a r IH]; cbn [insert_sorted].
  - intros [<-|[]]. auto.
  - destruct (Qle_bool x a).
    + intros [<-|H]; auto.
    + intros [<-|H]; [right; left; reflexivity|].
      destruct (IH H); auto. right. right. assumption.
Qed.

Lemma insert_sorted_mono (x : Q) (l : list Q) :
  is_monotonic_increasing l = true ->
  is_monotonic_increasing (insert_sorted x l) = true.
Proof.
  induction l as [|a r IH]; intros H; [reflexivity|].
  cbn [insert_sorted]. destruct (Qle_bool x a) eqn:E.
  - apply Qle_bool_iff in E. apply mono_cons. split; [|exact H].
    apply mono_cons in H. destruct H as [Hall _].
    intros y [<-|Hy]; [exact E|]. apply Qle_trans with a; auto.
  - assert (Hax : a <= x).
    { destruct (Qlt_le_dec a x) as [L|L]; [apply Qlt_le_weak; exact L|].
      apply Qle_bool_iff in L. congruence. }
    apply mono_cons in H. destruct H as [Hall Hm].
    apply mono_cons. split; [|auto].
    intros y Hy. apply insert_sorted_In in Hy. destruct Hy as [->|Hy]; auto.
Qed.

Lemma sort_mono (l : list Q) : is_monotonic_increasing (sort l) = true.
Proof.
  unfold sort. induction l as [|a r IH]; [reflexivity|].
  cbn [fold_right]. apply insert_sorted_mono. exact IH.
Qed.

Lemma insert_sorted_length (x : Q) (l : list Q) :
  List.length (insert_sorted x l) = S (List.length l).
Proof.
  induction l as [|a r IH]; [reflexivity|].
  cbn [insert_sorted]. destruct (Qle_bool x a); simpl; auto.
Qed.

Lemma sort_length (l : list Q) : List.length (sort l) = List.length l.
Proof.
  unfold sort. induction l as [|a r IH]; [reflexivity|].
  cbn [fold_right]. rewrite insert_sorted_length. simpl. auto.
Qed.

Lemma mono_nth (s : list Q) (i j : nat) :
  is_monotonic_increasing s = true ->
  (i <= j)%nat -> (j < List.length s)%nat -> nth i s 0 <= nth j s 0.
Proof.
  revert i j. induction s as [|a r IH]; intros i j H Hij Hj; [simpl in Hj; lia|].
  apply mono_cons in H. destruct H as [Hall Hm].
  destruct j as [|j].
  - assert (i = 0%nat) by lia. subst. apply Qle_refl.
  - simpl in Hj. destruct i as [|i]; cbn [nth].
    + apply Hall. apply nth_In. lia.
    + apply IH; auto; lia.
Qed.

Lemma of_nat_to_nat (z : Z) : (0 <= z)%Z -> of_nat (Z.to_nat z) = inject_Z z.
Proof. intros H. unfold of_nat. rewrite Z2Nat.id; auto. Qed.

(** The quantile grows with the probability. *)
Lemma quantile_mono (s : list Q) (p p' : Q) :
  is_monotonic_increasing s = true -> s <> [] ->
  0 <= p -> p <= p' -> p' <= 1 ->
  quantile s p <= quantile s p'.
Proof.
  intros Hs Hne H0 Hpp H1. unfold quantile.
  set (n1 := (List.length s - 1)%nat).
  assert (Hlen : (n1 < List.length s)%nat).
  { subst n1. destruct s; [congruence | simpl; lia]. }
  pose proof (of_nat_nonneg n1) as Hn.
  set (h := of_nat n1 * p). set (h' := of_nat n1 * p').
  assert (Hh0 : 0 <= h) by (subst h; nra).
  assert (Hhh : h <= h') by (subst h h'; nra).
  assert (Hh1 : h' <= of_nat n1) by (subst h'; nra).
  pose proof (Qfloor_le h) as F1. pose proof (Qlt_floor h) as F2.
  pose proof (Qfloor_le h') as F1'. pose proof (Qlt_floor h') as F2'.
  assert (Z0 : (0 <= Qfloor h)%Z).
  { change 0%Z with (Qfloor 0). apply Qfloor_resp_le. exact Hh0. }
  assert (Z1 : (Qfloor h <= Qfloor h')%Z) by (apply Qfloor_resp_le; exact Hhh).
  assert (Z2 : (Qfloor h' <= Z.of_nat n1)%Z).
  { rewrite <- (Qfloor_Z (Z.of_nat n1)). apply Qfloor_resp_le. exact Hh1. }
  rewrite inject_Z_plus in F2, F2'.
  set (lo := Z.to_nat (Qfloor h)) in *. set (lo' := Z.to_nat (Qfloor h')) in *.
  assert (Hlo : (lo <= lo')%nat) by (subst lo lo'; lia).
  assert (Hlo' : (lo' <= n1)%nat) by (subst lo'; lia).
  assert (Hab : nth lo s 0 <= nth (Nat.min (S lo) n1) s 0)
    by (apply mono_nth; auto; lia).
  assert (Hab' : nth lo' s 0 <= nth (Nat.min (S lo') n1) s 0)
    by (apply mono_nth; auto; lia).
  set (a := nth lo s 0) in *. set (b := nth (Nat.min (S lo) n1) s 0) in *.
  set (a' := nth lo' s 0) in *. set (b' := nth (Nat.min (S lo') n1) s 0) in *.
  set (fr := h - inject_Z (Qfloor h)). set (fr' := h' - inject_Z (Qfloor h')).
  assert (R0 : 0 <= fr) by (subst fr; lra).
  assert (R1 : fr <= 1) by (subst fr; change (inject_Z 1) with 1 in F2; lra).
  assert (R0' : 0 <= fr') by (subst fr'; lra).
  destruct (Z.eq_dec (Qfloor h) (Qfloor h')) as [E|E].
  - assert (lo = lo') by (subst lo lo'; congruence).
    assert (Hfr : fr <= fr') by (subst fr fr'; rewrite E; lra).
    subst a' b'. replace lo' with lo in * by assumption.
    fold a b. nra.
  - assert (Hba : b <= a').
    { subst b a'. apply mono_nth; auto; subst lo lo'; lia. }
    apply Qle_trans with b; [nra|].
    apply Qle_trans with a'; [exact Hba | nra].
Qed.

Lemma linspace_unit_bounds (n : nat) (p : Q) :
  In p (linspace 0 1 n) -> 0 <= p /\ p <= 1.
Proof.
  unfold linspace. intros H. apply in_map_iff in H.
  destruct H as [i [<- Hi]]. apply in_seq in Hi.
  pose proof (of_nat_nonneg i) as Hi0.
  pose proof (step_nonneg 0 1 n ltac:(lra)) as Hs.
  split; [nra|].
  destruct n as [|n].
  - assert (i = 0%nat) by lia. subst i.
    change (of_nat 0) with 0. unfold Qdiv. rewrite !Qmult_0_l. lra.
  - assert (Hn : 0 < of_nat (S n)) by (apply of_nat_pos; lia).
    assert (Hin : of_nat i <= of_nat (S n)) by (apply of_nat_le; lia).
    rewrite Qplus_0_l. unfold Qminus. change (- 0) with 0. rewrite Qplus_0_r.
    unfold Qdiv. rewrite Qmult_1_l.
    apply Qle_shift_div_r; [exact Hn|]. lra.
Qed.

Lemma mono_map (f : Q -> Q) (l : list Q) :
  (forall x y, In x l -> In y l -> x <= y -> f x <= f y) ->
  is_monotonic_increasing l = true ->
  is_monotonic_increasing (map f l) = true.
Proof.
  induction l as [|a r IH]; intros Hf H; [reflexivity|].
  apply mono_cons in H. destruct H as [Hall Hm].
  cbn [map]. apply mono_cons. split.
  - intros y Hy. apply in_map_iff in Hy. destruct Hy as [x [<- Hx]].
    apply Hf; [left; reflexivity | right; exact Hx | auto].
  - apply IH; auto. intros x y Hx Hy. apply Hf; right; assumption.
Qed.

(** The quantile edges increase. *)
Lemma quantile_bins_mono (obs : list Q) (n : nat) :
  obs <> [] ->
  is_monotonic_increasing (map (quantile (sort obs)) (linspace 0 1 n)) = true.
Proof.
  intros Hne. apply mono_map.
  - intros x y Hx Hy Hxy.
    apply linspace_unit_bounds in Hx, Hy.
    apply quantile_mono; try tauto; [apply sort_mono|].
    intros E. apply (f_equal (@List.length Q)) in E.
    rewrite sort_length in E. destruct obs; [congruence | discriminate].
  - apply linspace_mono. lra.
Qed.

(** ** Reusing the edges of sample 1 *)

Lemma bin_expected_mono xs m bins cats breaks :
  bin_expected xs m bins = Ok (cats, breaks) ->
  is_monotonic_increasing breaks = true.
Proof.
  intros H.
  assert (E : exists bins0, bins_to_cuts xs bins0 true = Ok (cats, breaks)
                            /\ is_monotonic_increasing bins0 = true).
  { unfold bin_expected in H. destruct m as [m|].
    - destruct (String.eqb m "equidistant").
      { apply pd_cut_inv in H. destruct H as [b [H Hb]]. exists b. split; auto.
        destruct bins; try tauto.
        - eapply nbins_to_bins_mono; eauto.
        - destruct Hb; subst; auto.
        - destruct Hb; subst; auto. }
      destruct (String.eqb m "quantiles"); [|discriminate].
      destruct bins as [q|l|l|]; try discriminate.
      apply pd_qcut_inv in H. destruct H as [_ [Hne H]].
      eexists. split; [exact H|]. apply quantile_bins_mono. exact Hne.
    - destruct (is_list_or_array bins); cbn [py_assert bind] in H; [|discriminate].
      apply pd_cut_inv in H. destruct H as [b [H Hb]]. exists b. split; auto.
      destruct bins; try tauto.
      + eapply nbins_to_bins_mono; eauto.
      + destruct Hb; subst; auto.
      + destruct Hb; subst; auto. }
  destruct E as [bins0 [B M]]. apply bins_to_cuts_inv in B.
  destruct B as [b0 [rest [_ [_ [->|[_ ->]]]]]]; auto using mono_unique.
Qed.

Lemma bins_to_cuts_again xs bins0 cats breaks (ys : list value) :
  bins_to_cuts xs bins0 true = Ok (cats, breaks) ->
  cats = map (bin_of breaks (hd 0 breaks)) xs
  /\ bins_to_cuts ys breaks false
     = Ok (map (bin_of breaks (hd 0 breaks)) ys, breaks).
Proof.
  intros H. pose proof (bins_to_cuts_inv _ _ _ _ _ H) as I.
  destruct I as [b0 [rest [Eb [Ec _]]]].
  split; [rewrite Eb in *; exact Ec|].
  unfold bins_to_cuts in *.
  destruct (Nat.ltb (List.length (unique bins0)) (List.length bins0)
            && negb (Nat.eqb (List.length bins0) 2)) eqn:C; cbn [bind] in H.
  - destruct (unique bins0) as [|u0 ur] eqn:U; [discriminate|].
    inversion H; subst breaks. rewrite <- U, unique_idem, Nat.ltb_irrefl.
    cbn [andb bind]. rewrite U. reflexivity.
  - destruct bins0 as [|c0 cr]; [discriminate|].
    inversion H; subst breaks. rewrite C. reflexivity.
Qed.

(** When the binning of sample 1 has produced edges, the second cut
    (line 95) succeeds with them, returns them unchanged, and gives the
    elements of sample 1 the categories they got from the first cut. *)
Lemma second_cut xs m bins cats breaks (ys : list value) :
  bin_expected xs m bins = Ok (cats, breaks) ->
  map astype_str cats = map (category_of breaks) xs
  /\ pd_cut ys (BinsArray breaks) false
     = Ok (map (bin_of breaks (hd 0 breaks)) ys, breaks).
Proof.
  intros H. pose proof (bin_expected_mono _ _ _ _ _ H) as M.
  apply bin_expected_inv in H. destruct H as [bins0 H].
  destruct (bins_to_cuts_again _ _ _ _ ys H) as [-> P].
  split; [apply map_map|].
  cbn [pd_cut]. rewrite M. exact P.
Qed.

(** In numerical mode both samples are categorised by the edges of
    sample 1. *)
Lemma categorize_numeric s1 s2 m bins cats breaks :
  is_numeric_dtype (s_dtype s1) = true ->
  is_numeric_dtype (s_dtype s2) = true ->
  bin_expected (s_values s1) m bins = Ok (cats, breaks) ->
  categorize s1 s2 m bins false
  = Ok (map (category_of breaks) (s_values s1),
        map (category_of breaks) (s_values s2)).
Proof.
  intros N1 N2 B. unfold categorize. rewrite N1, N2, B.
  cbn [andb negb py_assert bind fst snd].
  destruct (second_cut _ _ _ _ _ (s_values s2) B) as [E P].
  rewrite P. cbn [bind fst]. rewrite E, map_map. reflexivity.
Qed.

Lemma categorize_numeric_inv s1 s2 m bins c1 c2 :
  is_numeric_dtype (s_dtype s1) = true ->
  categorize s1 s2 m bins false = Ok (c1, c2) ->
  is_numeric_dtype (s_dtype s2) = true
  /\ exists cats breaks,
       bin_expected (s_values s1) m bins = Ok (cats, breaks)
       /\ pd_cut (s_values s2) (BinsArray breaks) false
          = Ok (map (bin_of breaks (hd 0 breaks)) (s_values s2), breaks)
       /\ c1 = map (category_of breaks) (s_values s1)
       /\ c2 = map (category_of breaks) (s_values s2).
Proof.
  intros N1 H.
  destruct (is_numeric_dtype (s_dtype s2)) eqn:N2.
  2:{ unfold categorize in H. rewrite N1, N2 in H. discriminate H. }
  split; [reflexivity|].
  destruct (bin_expected (s_values s1) m bins) as [[cats breaks]|e] eqn:B.
  2:{ unfold categorize in H. rewrite N1, N2, B in H. discriminate H. }
  rewrite (categorize_numeric _ _ _ _ _ _ N1 N2 B) in H. inversion H.
  exists cats, breaks. split; [reflexivity|].
  split; [apply (second_cut _ _ _ _ _ _ B) | auto].
Qed.

Lemma unique_nonempty (l : list Q) : l <> [] -> unique l <> [].
Proof. destruct l; [congruence | discriminate]. Qed.

Lemma bins_to_cuts_drop_ok xs bins :
  bins <> [] -> exists r, bins_to_cuts xs bins true = Ok r.
Proof.
  intros H. unfold bins_to_cuts.
  destruct (Nat.ltb _ _ && negb _); cbn [bind].
  - pose proof (unique_nonempty _ H). destruct (unique bins); [congruence|eauto].
  - destruct bins; [congruence|eauto].
Qed.

Lemma linspace_nonempty (a b : Q) (n : nat) : linspace a b n <> [].
Proof. unfold linspace. cbn [seq map]. discriminate. Qed.

(** Equidistant binning with at least one bin succeeds on every sample
    with an observed number. *)
Lemma equidistant_ok xs n :
  (1 <= n)%Z -> observed xs <> [] ->
  exists r, bin_expected xs (Some "equidistant") (BinsInt n) = Ok r.
Proof.
  intros Hn Ho. cbn [bin_expected String.eqb Ascii.eqb Bool.eqb pd_cut].
  unfold nbins_to_bins. apply Z.ltb_ge in Hn. rewrite Hn.
  destruct (observed xs) as [|o os]; [congruence|].
  destruct (Qeq_bool _ _); cbn [bind].
  - apply bins_to_cuts_drop_ok, linspace_nonempty.
  - pose proof (linspace_nonempty (fold_left qmin os o) (fold_left qmax os o)
                  (Z.to_nat n)) as L.
    destruct (linspace _ _ _); [congruence|]. cbn [bind].
    apply bins_to_cuts_drop_ok. discriminate.
Qed.

(** Quantile binning succeeds on every sample with an observed number. *)
Lemma quantiles_ok xs q :
  (0 <= q)%Z -> observed xs <> [] ->
  exists r, bin_expected xs (Some "quantiles") (BinsInt q) = Ok r.
Proof.
  intros Hq Ho. cbn [bin_expected String.eqb Ascii.eqb Bool.eqb].
  unfold pd_qcut. apply Z.ltb_ge in Hq. rewrite Hq.
  destruct (observed xs) as [|o os] eqn:E; [congruence|].
  apply bins_to_cuts_drop_ok. intros M. apply map_eq_nil in M.
  exact (linspace_nonempty _ _ _ M).
Qed.

(** ** A sample against itself *)

Lemma py_sum_zero (l : list float) :
  (forall x, In x l -> x = Fin 0%R) -> py_sum l = Fin 0%R.
Proof.
  unfold py_sum. induction l as [|x r IH]; intros H; [reflexivity|].
  cbn [fold_left]. rewrite (H x (or_introl eq_refl)). cbn [fadd].
  rewrite Rplus_0_l. apply IH. intros y Hy. apply H. right. exact Hy.
Qed.

Lemma replace_cell_nonzero (reg f : Q) : 0 < f -> replace_cell 0 reg f = f.
Proof.
  intros H. unfold replace_cell. destruct (Qeq_bool f 0) eqn:E; [|reflexivity].
  apply Qeq_bool_iff in E. rewrite E in H. exfalso. apply (Qlt_irrefl 0 H).
Qed.

(** Equal category sequences give a PSI value of exactly 0, whatever the
    regulariser. *)
Lemma aggregate_same (X : list category) (reg : Q) :
  fst (aggregate X X reg) = Fin 0%R.
Proof.
  rewrite aggregate_unfold. cbn [fst]. apply py_sum_zero.
  intros x Hx. apply in_map_iff in Hx. destruct Hx as [r [<- Hr]].
  apply replace_rows in Hr. destruct Hr as [r0 [H0 [_ [He Ha]]]].
  apply df0_row_cells in H0. destruct H0 as [Hk [He0 Ha0]].
  apply -> distinct_In in Hk.
  assert (Hin : In (r_key r0) X) by (apply in_app_or in Hk; tauto).
  apply <- count_pos_iff in Hin.
  destruct (cell0_cases X (r_key r0)) as [[_ [_ P]] | [Z _]]; [|lia].
  rewrite He0, replace_cell_nonzero in He by exact P.
  rewrite Ha0, replace_cell_nonzero in Ha by exact P.
  destruct r as [k e a]. cbn [expected actual] in He, Ha. subst e a.
  rewrite psi_term_positive by exact P. f_equal.
  apply Qlt_Rlt in P. rewrite RMicromega.Q2R_0 in P.
  unfold Rdiv. rewrite Rinv_r by lra. rewrite ln_1. ring.
Qed.

(** C2, as stated, does not hold: a non-empty sample of missing values
    only, taken as numerical (the defaults: equidistant, 10 bins), gives
    no edges that the cut of line 95 accepts, and [psi_calc] raises instead
    of returning 0. *)
Lemma identity_fails_for_all_missing_sample :
  ~ (forall (s : Series) (m : option string),
        s_empty s = false ->
        m = Some "equidistant" \/ m = Some "quantiles" ->
        exists tbl,
          psi_calc (InSeries s) (InSeries s) m (BinsInt 10) false (1 # 10000) 3
          = Ok (Fin 0%R, tbl)).
Proof.
  intros H.
  destruct (H all_missing (Some "equidistant") eq_refl (or_introl eq_refl))
    as [tbl E].
  discriminate E.
Qed.

(** What [psi_calc] does on that sample. *)
Example all_missing_sample_raises :
  psi_calc (InSeries all_missing) (InSeries all_missing)
           (Some "equidistant") (BinsInt 10) false (1 # 10000) 3
  = Raise (ValueError "bins must increase monotonically.")
  /\ exists tbl,
       psi_calc (InSeries all_missing) (InSeries all_missing)
                (Some "equidistant") (BinsInt 10) true (1 # 10000) 3
       = Ok (Fin 0%R, tbl).
Proof.
  split; [reflexivity|].
  eexists. unfold psi_calc. cbn [convert_input bind check_empty obj_empty
    s_empty s_values all_missing categorize andb negb is_numeric_dtype s_dtype
    fst snd].
  rewrite (surjective_pairing (aggregate _ _ _)), aggregate_same. reflexivity.
Qed.

(** C2, amended.  For a non-empty sample S, [psi_calc(S, S)] returns the
    PSI value 0 when the data is taken as categorical ([force_categorical]
    true or a dtype that is not numerical), missing values included; and
    when it is binned numerically, by equidistant bins or by quantiles
    with at least one bin, provided S holds at least one number (missing
    values may occur beside it; the numbers of a sample are finite here,
    see [value]). *)
Theorem psi_calc_identity (X1 X2 : pyinput) (s : Series)
    (m : option string) (bins : bins_arg) (fc : bool) (reg : Q) (prec : Z) :
  convert_input X1 msg_invalid_X1 = Ok (PSeries s) ->
  convert_input X2 msg_invalid_X2 = Ok (PSeries s) ->
  s_empty s = false ->
  (is_numeric_dtype (s_dtype s) = false \/ fc = true ->
     exists tbl, psi_calc X1 X2 m bins fc reg prec = Ok (Fin 0%R, tbl))
  /\ (is_numeric_dtype (s_dtype s) = true ->
      observed (s_values s) <> [] ->
      (forall n, (1 <= n)%Z ->
         exists tbl, psi_calc X1 X2 (Some "equidistant") (BinsInt n)
                              false reg prec = Ok (Fin 0%R, tbl))
      /\ (forall q, (1 <= q)%Z ->
            exists tbl, psi_calc X1 X2 (Some "quantiles") (BinsInt q)
                                 false reg prec = Ok (Fin 0%R, tbl))).
Proof.
  intros H1 H2 E.
  assert (G : forall m' bins' r,
             is_numeric_dtype (s_dtype s) = true ->
             bin_expected (s_values s) m' bins' = Ok r ->
             exists tbl, psi_calc X1 X2 m' bins' false reg prec
                         = Ok (Fin 0%R, tbl)).
  { intros m' bins' [cats breaks] N B.
    rewrite (psi_calc_nonempty _ _ _ _ _ _ _ _ _ H1 H2 E E).
    rewrite (categorize_numeric _ _ _ _ _ _ N N B). cbn [bind fst snd].
    eexists. rewrite (surjective_pairing (aggregate _ _ _)), aggregate_same.
    reflexivity. }
  split.
  - intros HC.
    destruct (psi_calc_no_check_when_categorical_aux X1 X2 s s m bins fc reg prec
                H1 H2 HC) as [_ P].
    rewrite E in P. cbn [orb] in P. rewrite P.
    eexists. rewrite (surjective_pairing (aggregate _ _ _)), aggregate_same.
    reflexivity.
  - intros N Ho. split.
    + intros n Hn. destruct (equidistant_ok _ _ Hn Ho) as [r B]. eauto.
    + intros q Hq.
      assert (Hq0 : (0 <= q)%Z) by lia.
      destruct (quantiles_ok _ _ Hq0 Ho) as [r B]. eauto.
Qed.

Lemma psi_calc_identity_witness :
  (is_numeric_dtype (s_dtype main_X1) = false \/ false = true ->
     exists tbl, psi_calc (InArray 1 main_X1) (InArray 1 main_X1)
                          (Some "equidistant") (BinsInt 3) false (1 # 10000) 3
                 = Ok (Fin 0%R, tbl))
  /\ (is_numeric_dtype (s_dtype main_X1) = true ->
      observed (s_values main_X1) <> [] ->
      (forall n, (1 <= n)%Z ->
         exists tbl, psi_calc (InArray 1 main_X1) (InArray 1 main_X1)
                              (Some "equidistant") (BinsInt n) false
                              (1 # 10000) 3
                     = Ok (Fin 0%R, tbl))
      /\ (forall q, (1 <= q)%Z ->
            exists tbl, psi_calc (InArray 1 main_X1) (InArray 1 main_X1)
                                 (Some "quantiles") (BinsInt q) false
                                 (1 # 10000) 3
                        = Ok (Fin 0%R, tbl))).
Proof.
  apply (psi_calc_identity (InArray 1 main_X1) (InArray 1 main_X1) main_X1
           (Some "equidistant") (BinsInt 3) false (1 # 10000) 3).
  - reflexivity.
  - reflexivity.
  - reflexivity.
Defined.

(** ** Values outside the edges *)

Lemma Qlt_bool_iff (a b : Q) : Qlt_bool a b = true <-> a < b.
Proof.
  unfold Qlt_bool. rewrite negb_true_iff. split.
  - intros H. destruct (Qlt_le_dec a b) as [L|L]; [exact L|].
    apply Qle_bool_iff in L. congruence.
  - intros H. destruct (Qle_bool b a) eqn:E; [|reflexivity].
    apply Qle_bool_iff in E. exfalso. apply (Qlt_irrefl a).
    apply Qlt_le_trans with b; assumption.
Qed.

Lemma Qle_bool_false (a b : Q) : b < a -> Qle_bool a b = false.
Proof.
  intros H. apply Qlt_bool_iff in H. unfold Qlt_bool in H.
  apply negb_true_iff in H. exact H.
Qed.

Lemma min_edge_le (breaks : list Q) (e : Q) :
  In e breaks -> min_edge breaks <= e.
Proof.
  intros H. unfold min_edge. apply fold_qmin_le.
  destruct breaks as [|b r]; [destruct H|]. destruct H; [left|right]; auto.
Qed.

Lemma max_edge_ge (breaks : list Q) (e : Q) :
  In e breaks -> e <= max_edge breaks.
Proof.
  intros H. unfold max_edge. apply fold_qmax_ge.
  destruct breaks as [|b r]; [destruct H|]. destruct H; [left|right]; auto.
Qed.

Lemma bin_of_missing (bins : list Q) (b0 : Q) (v : value) :
  num_of v = None -> bin_of bins b0 v = None.
Proof. intros H. unfold bin_of. rewrite H. reflexivity. Qed.

Lemma searchsorted_left_above (bins : list Q) (x : Q) :
  (forall e, In e bins -> e < x) ->
  searchsorted_left bins x = List.length bins.
Proof.
  induction bins as [|b r IH]; intros H; [reflexivity|].
  cbn [searchsorted_left]. rewrite Qle_bool_false by (apply H; left; reflexivity).
  simpl. f_equal. apply IH. intros e He. apply H. right. exact He.
Qed.

(** A number below every edge, or above every edge, gets no interval. *)
Lemma bin_of_outside (bins : list Q) (x : Q) :
  x < min_edge bins \/ max_edge bins < x ->
  bin_of bins (hd 0 bins) (VNum x) = None.
Proof.
  intros H. destruct bins as [|b r].
  - unfold bin_of. cbn [num_of hd searchsorted_left List.length].
    change (min_edge []) with 0 in H. change (max_edge []) with 0 in H.
    destruct (Qeq_bool x 0) eqn:E; [|reflexivity].
    apply Qeq_bool_iff in E. rewrite E in H.
    destruct H as [H|H]; destruct (Qlt_irrefl _ H).
  - unfold bin_of. cbn [num_of hd].
    assert (Hb : In b (b :: r)) by (left; reflexivity).
    destruct H as [H|H].
    + assert (L : x < b).
      { apply Qlt_le_trans with (min_edge (b :: r)); [exact H|].
        apply min_edge_le. exact Hb. }
      destruct (Qeq_bool x b) eqn:E.
      { apply Qeq_bool_iff in E. rewrite E in L. destruct (Qlt_irrefl _ L). }
      cbn [searchsorted_left].
      rewrite (proj2 (Qle_bool_iff x b) (Qlt_le_weak _ _ L)).
      rewrite orb_true_r. reflexivity.
    + assert (A : forall e, In e (b :: r) -> e < x).
      { intros e He. apply Qle_lt_trans with (max_edge (b :: r)); [|exact H].
        apply max_edge_ge. exact He. }
      destruct (Qeq_bool x b) eqn:E.
      { apply Qeq_bool_iff in E. pose proof (A b Hb) as L. rewrite E in L.
        destruct (Qlt_irrefl _ L). }
      rewrite searchsorted_left_above by exact A.
      rewrite Nat.eqb_refl. reflexivity.
Qed.

Lemma category_of_unbinned (breaks : list Q) (v : value) :
  unbinned breaks v = true -> category_of breaks v = CatNan.
Proof.
  unfold unbinned, category_of. destruct (num_of v) as [x|] eqn:N.
  - destruct v; try discriminate. cbn [num_of] in N. inversion N; subst.
    rewrite orb_true_iff, !Qlt_bool_iff. intros H.
    rewrite bin_of_outside by exact H. reflexivity.
  - intros _. rewrite bin_of_missing by exact N. reflexivity.
Qed.

Lemma count_map_filter (f : value -> category) (p : value -> bool)
    (c : category) (l : list value) :
  (forall v, In v l -> p v = true -> f v = c) ->
  (List.length (filter p l) <= count c (map f l))%nat.
Proof.
  induction l as [|a r IH]; intros H; [simpl; lia|].
  assert (IH' : (List.length (filter p r) <= count c (map f r))%nat).
  { apply IH. intros v Hv. apply H. right. exact Hv. }
  cbn [filter map count]. destruct (p a) eqn:P.
  - rewrite (H a (or_introl eq_refl) P), category_eqb_refl. simpl. lia.
  - destruct (category_eqb c (f a)); lia.
Qed.

(** ** Numerical mode: the edges of sample 1 applied to sample 2 *)

(** C3.  In numerical mode the edges used to categorise sample 2 are
    exactly the edges computed from sample 1: the second cut receives them,
    returns them unchanged, and both samples get their categories from
    these edges alone.  A value of sample 2 strictly outside
    [[min_edge, max_edge]] gets the category ["nan"], which is none of the
    intervals, and that category has a row of its own in the table. *)
Theorem psi_calc_expected_edges_reused (X1 X2 : pyinput) (s1 s2 : Series)
    (m : option string) (bins : bins_arg) (reg : Q) (prec : Z)
    (psi : float) (tbl : DataFrame) :
  convert_input X1 msg_invalid_X1 = Ok (PSeries s1) ->
  convert_input X2 msg_invalid_X2 = Ok (PSeries s2) ->
  s_empty s1 = false -> s_empty s2 = false ->
  is_numeric_dtype (s_dtype s1) = true ->
  psi_calc X1 X2 m bins false reg prec = Ok (psi, tbl) ->
  exists cats breaks,
    bin_expected (s_values s1) m bins = Ok (cats, breaks)
    /\ pd_cut (s_values s2) (BinsArray breaks) false
       = Ok (map (bin_of breaks (hd 0 breaks)) (s_values s2), breaks)
    /\ categorize s1 s2 m bins false
       = Ok (map (category_of breaks) (s_values s1),
             map (category_of breaks) (s_values s2))
    /\ forall x, In (VNum x) (s_values s2) ->
         x < min_edge breaks \/ max_edge breaks < x ->
         category_of breaks (VNum x) = CatNan
         /\ (forall lo hi, category_of breaks (VNum x) <> CatInterval lo hi)
         /\ exists r, In r tbl /\ r_key r = CatNan.
Proof.
  intros H1 H2 E1 E2 N1 H.
  destruct (psi_calc_result _ _ _ _ _ _ _ _ _ _ _ H1 H2 E1 E2 H)
    as [c1 [c2 [C [_ ->]]]].
  destruct (categorize_numeric_inv _ _ _ _ _ _ N1 C)
    as [N2 [cats [breaks [B [P [-> ->]]]]]].
  exists cats, breaks. split; [exact B|]. split; [exact P|].
  split; [exact C|].
  intros x Hx Ho.
  assert (K : category_of breaks (VNum x) = CatNan).
  { unfold category_of. rewrite bin_of_outside by exact Ho. reflexivity. }
  split; [exact K|]. split; [rewrite K; discriminate|].
  rewrite df0_rows.
  exists (mkRow CatNan
            (cell0 (map (category_of breaks) (s_values s1)) CatNan)
            (cell0 (map (category_of breaks) (s_values s2)) CatNan)).
  split; [|reflexivity].
  apply in_map_iff. exists CatNan. split; [reflexivity|].
  apply distinct_In, in_or_app. right. rewrite <- K.
  apply in_map. exact Hx.
Qed.

Lemma df0_row_of_key (X1 X2 : list category) (r : row Q) :
  In r (df0_of X1 X2) -> r = mkRow (r_key r) (cell0 X1 (r_key r)) (cell0 X2 (r_key r)).
Proof.
  intros H. apply df0_row_cells in H. destruct H as [_ [He Ha]].
  destruct r as [k e a]. cbn [r_key expected actual] in *. subst. reflexivity.
Qed.

Lemma df0_row_exists (X1 X2 : list category) (c : category) :
  In c X1 \/ In c X2 ->
  In (mkRow c (cell0 X1 c) (cell0 X2 c)) (df0_of X1 X2).
Proof.
  intros H. rewrite df0_rows. apply in_map_iff. exists c.
  split; [reflexivity|]. apply distinct_In, in_or_app. exact H.
Qed.

(** C9.  In numerical mode a missing value of either sample, and a value
    of sample 2 outside the range of the edges, all get the one category
    ["nan"].  As soon as there is such an element the table has a row
    ["nan"], and only one; its frequencies count these elements together
    (at least the missing values of sample 1 in the expected column, at
    least the missing and the out-of-range values of sample 2 in the
    actual column, so the column concerned is positive), and the row
    contributes one term to the PSI sum. *)
Theorem psi_calc_nan_category_shared (X1 X2 : pyinput) (s1 s2 : Series)
    (m : option string) (bins : bins_arg) (reg : Q) (prec : Z)
    (psi : float) (tbl : DataFrame) :
  convert_input X1 msg_invalid_X1 = Ok (PSeries s1) ->
  convert_input X2 msg_invalid_X2 = Ok (PSeries s2) ->
  s_empty s1 = false -> s_empty s2 = false ->
  is_numeric_dtype (s_dtype s1) = true ->
  psi_calc X1 X2 m bins false reg prec = Ok (psi, tbl) ->
  exists breaks c1 c2,
    categorize s1 s2 m bins false = Ok (c1, c2)
    /\ c1 = map (category_of breaks) (s_values s1)
    /\ c2 = map (category_of breaks) (s_values s2)
    /\ (forall v, num_of v = None -> category_of breaks v = CatNan)
    /\ (forall x, x < min_edge breaks \/ max_edge breaks < x ->
          category_of breaks (VNum x) = CatNan)
    /\ NoDup (map r_key tbl)
    /\ psi = py_sum (map psi_term (replace 0 reg tbl))
    /\ (forall r, In r tbl -> r_key r = CatNan ->
          expected r == of_nat (count CatNan c1) / of_nat (s_len s1)
          /\ actual r == of_nat (count CatNan c2) / of_nat (s_len s2))
    /\ (List.length (filter is_missing (s_values s1)) <= count CatNan c1)%nat
    /\ (List.length (filter (unbinned breaks) (s_values s2))
        <= count CatNan c2)%nat
    /\ ((exists v, In v (s_values s1) /\ is_missing v = true)
        \/ (exists v, In v (s_values s2) /\ unbinned breaks v = true) ->
        exists r,
          In r tbl /\ r_key r = CatNan
          /\ (forall r', In r' tbl -> r_key r' = CatNan -> r' = r)
          /\ (0 < expected r \/ 0 < actual r)
          /\ In (psi_term (mkRow CatNan (replace_cell 0 reg (expected r))
                                        (replace_cell 0 reg (actual r))))
                (map psi_term (replace 0 reg tbl))).
Proof.
  intros H1 H2 E1 E2 N1 H.
  destruct (psi_calc_result _ _ _ _ _ _ _ _ _ _ _ H1 H2 E1 E2 H)
    as [c1 [c2 [C [Hpsi ->]]]].
  destruct (categorize_length _ _ _ _ _ _ _ C) as [L1 L2].
  destruct (categorize_numeric_inv _ _ _ _ _ _ N1 C)
    as [N2 [cats [breaks [B [P [Ec1 Ec2]]]]]].
  assert (M : forall v, num_of v = None -> category_of breaks v = CatNan).
  { intros v Hv. unfold category_of. rewrite bin_of_missing by exact Hv.
    reflexivity. }
  assert (M' : forall v, is_missing v = true -> category_of breaks v = CatNan).
  { intros v Hv. apply M. unfold is_missing in Hv.
    destruct (num_of v); [discriminate Hv | reflexivity]. }
  exists breaks, c1, c2. split; [exact C|]. split; [exact Ec1|].
  split; [exact Ec2|]. split; [exact M|].
  split.
  { intros x Hx. unfold category_of. rewrite bin_of_outside by exact Hx.
    reflexivity. }
  split; [rewrite df0_keys; apply distinct_NoDup|].
  split; [rewrite Hpsi, aggregate_unfold; reflexivity|].
  split.
  { intros r Hr Hk. apply df0_row_cells in Hr. destruct Hr as [_ [-> ->]].
    rewrite Hk, <- L1, <- L2. split; apply cell0_freq. }
  split.
  { rewrite Ec1. apply count_map_filter. intros v _ Hv. apply M'. exact Hv. }
  split.
  { rewrite Ec2. apply count_map_filter.
    intros v _ Hv. apply category_of_unbinned. exact Hv. }
  intros Hex.
  assert (I : In CatNan c1 \/ In CatNan c2).
  { destruct Hex as [[v [Hv Mv]]|[v [Hv Uv]]].
    - left. rewrite Ec1, <- (M' v Mv). apply in_map. exact Hv.
    - right. rewrite Ec2, <- (category_of_unbinned breaks v Uv).
      apply in_map. exact Hv. }
  exists (mkRow CatNan (cell0 c1 CatNan) (cell0 c2 CatNan)).
  split; [apply df0_row_exists; exact I|].
  split; [reflexivity|]. split.
  { intros r' Hr' Hk. rewrite (df0_row_of_key _ _ _ Hr'), Hk. reflexivity. }
  split.
  { cbn [expected actual].
    destruct I as [I|I]; apply count_pos_iff in I.
    - left. destruct (cell0_cases c1 CatNan) as [[_ [_ Q]]|[Z _]];
        [exact Q | lia].
    - right. destruct (cell0_cases c2 CatNan) as [[_ [_ Q]]|[Z _]];
        [exact Q | lia]. }
  cbn [expected actual]. apply in_map. unfold replace.
  apply in_map_iff. exists (mkRow CatNan (cell0 c1 CatNan) (cell0 c2 CatNan)).
  split; [reflexivity | apply df0_row_exists; exact I].
Qed.

Example range_result_table :
  map Qred range_breaks = [499 # 500; 5 # 3; 7 # 3; 3]
  /\ map (category_of range_breaks) (s_values range_X2)
     = [CatNan; CatNan; CatNan; CatInterval (5 # 3) (7 # 3)]
  /\ map (fun r => (r_key r, Qred (expected r), Qred (actual r)))
         (snd range_result)
     = [(CatInterval (499 # 500) (5 # 3), 1 # 4, 0);
        (CatInterval (5 # 3) (7 # 3), 1 # 4, 1 # 4);
        (CatInterval (7 # 3) 3, 1 # 4, 0);
        (CatNan, 1 # 4, 3 # 4)].
Proof. repeat split; reflexivity. Qed.

Lemma psi_calc_expected_edges_reused_witness :
  exists cats breaks,
    bin_expected (s_values range_X1) (Some "equidistant") (BinsInt 3)
    = Ok (cats, breaks)
    /\ pd_cut (s_values range_X2) (BinsArray breaks) false
       = Ok (map (bin_of breaks (hd 0 breaks)) (s_values range_X2), breaks)
    /\ categorize range_X1 range_X2 (Some "equidistant") (BinsInt 3) false
       = Ok (map (category_of breaks) (s_values range_X1),
             map (category_of breaks) (s_values range_X2))
    /\ forall x, In (VNum x) (s_values range_X2) ->
         x < min_edge breaks \/ max_edge breaks < x ->
         category_of breaks (VNum x) = CatNan
         /\ (forall lo hi, category_of breaks (VNum x) <> CatInterval lo hi)
         /\ exists r, In r (snd range_result) /\ r_key r = CatNan.
Proof.
  apply (psi_calc_expected_edges_reused (InList range_X1) (InList range_X2)
           range_X1 range_X2 (Some "equidistant") (BinsInt 3) (1 # 10000) 3
           (fst range_result)); reflexivity.
Defined.

Lemma psi_calc_nan_category_shared_witness :
  exists breaks c1 c2,
    categorize range_X1 range_X2 (Some "equidistant") (BinsInt 3) false
    = Ok (c1, c2)
    /\ c1 = map (category_of breaks) (s_values range_X1)
    /\ c2 = map (category_of breaks) (s_values range_X2)
    /\ (forall v, num_of v = None -> category_of breaks v = CatNan)
    /\ (forall x, x < min_edge breaks \/ max_edge breaks < x ->
          category_of breaks (VNum x) = CatNan)
    /\ NoDup (map r_key (snd range_result))
    /\ fst range_result
       = py_sum (map psi_term (replace 0 (1 # 10000) (snd range_result)))
    /\ (forall r, In r (snd range_result) -> r_key r = CatNan ->
          expected r == of_nat (count CatNan c1) / of_nat (s_len range_X1)
          /\ actual r == of_nat (count CatNan c2) / of_nat (s_len range_X2))
    /\ (List.length (filter is_missing (s_values range_X1))
        <= count CatNan c1)%nat
    /\ (List.length (filter (unbinned breaks) (s_values range_X2))
        <= count CatNan c2)%nat
    /\ ((exists v, In v (s_values range_X1) /\ is_missing v = true)
        \/ (exists v, In v (s_values range_X2) /\ unbinned breaks v = true) ->
        exists r,
          In r (snd range_result) /\ r_key r = CatNan
          /\ (forall r', In r' (snd range_result) -> r_key r' = CatNan ->
                r' = r)
          /\ (0 < expected r \/ 0 < actual r)
          /\ In (psi_term (mkRow CatNan
                                (replace_cell 0 (1 # 10000) (expected r))
                                (replace_cell 0 (1 # 10000) (actual r))))
                (map psi_term (replace 0 (1 # 10000) (snd range_result)))).
Proof.
  apply (psi_calc_nan_category_shared (InList range_X1) (InList range_X2)
           range_X1 range_X2 (Some "equidistant") (BinsInt 3) (1 # 10000) 3);
    reflexivity.
Defined.

(** * Further properties of [psi_calc] *)

(** ** Input conversion (lines 47-62) *)

Lemma convert_input_acceptable (X : pyinput) (msg : string) :
  (acceptable X = true -> exists o, convert_input X msg = Ok o)
  /\ (acceptable X = false -> convert_input X msg = Raise (ValueError msg)).
Proof.
  destruct X as [s|n s|s|n c|]; cbn [acceptable convert_input];
    try destruct (Nat.eqb n 1); split; intros H; try discriminate H; eauto.
Qed.

Lemma bins_to_cuts_no_input_error xs bins drop e :
  bins_to_cuts xs bins drop = Raise e -> is_input_error e = false.
Proof.
  unfold bins_to_cuts.
  destruct (Nat.ltb _ _ && negb _); [destruct drop|]; simpl;
    try (intros H; inversion H; reflexivity).
  - destruct (unique bins); intros H; inversion H; reflexivity.
  - destruct bins; intros H; inversion H; reflexivity.
Qed.

Lemma pd_cut_no_input_error xs bins drop e :
  pd_cut xs bins drop = Raise e -> is_input_error e = false.
Proof.
  destruct bins as [n|l|l|]; cbn [pd_cut].
  - unfold nbins_to_bins. destruct (n <? 1)%Z; cbn [bind].
    { intros H; inversion H; reflexivity. }
    destruct (observed xs); cbn [bind]; [intros H; inversion H; reflexivity|].
    destruct (Qeq_bool _ _); cbn [bind];
      [apply bins_to_cuts_no_input_error|].
    destruct (linspace _ _ _); cbn [bind]; apply bins_to_cuts_no_input_error.
  - destruct (is_monotonic_increasing l).
    + apply bins_to_cuts_no_input_error.
    + intros H; inversion H; reflexivity.
  - destruct (is_monotonic_increasing l).
    + apply bins_to_cuts_no_input_error.
    + intros H; inversion H; reflexivity.
  - intros H; inversion H; reflexivity.
Qed.

Lemma bin_expected_no_input_error xs m bins e :
  bin_expected xs m bins = Raise e -> is_input_error e = false.
Proof.
  unfold bin_expected. destruct m as [m|].
  - destruct (String.eqb m "equidistant"); [apply pd_cut_no_input_error|].
    destruct (String.eqb m "quantiles").
    + destruct bins as [q|l|l|]; try (intros H; inversion H; reflexivity).
      unfold pd_qcut. destruct (q <? 0)%Z; [intros H; inversion H; reflexivity|].
      destruct (observed xs); [intros H; inversion H; reflexivity|].
      apply bins_to_cuts_no_input_error.
    + intros H; inversion H; reflexivity.
  - destruct (is_list_or_array bins); cbn [py_assert bind].
    + apply pd_cut_no_input_error.
    + intros H; inversion H; reflexivity.
Qed.

Lemma categorize_no_input_error s1 s2 m bins fc e :
  categorize s1 s2 m bins fc = Raise e -> is_input_error e = false.
Proof.
  unfold categorize. destruct (is_numeric_dtype (s_dtype s1) && negb fc);
    [|discriminate].
  destruct (is_numeric_dtype (s_dtype s2)); cbn [py_assert bind];
    [|intros H; inversion H; reflexivity].
  destruct (bin_expected _ _ _) as [r|e1] eqn:B; cbn [bind].
  - destruct (pd_cut _ _ _) as [r2|e2] eqn:P; cbn [bind]; [discriminate|].
    intros H; inversion H; subst. eapply pd_cut_no_input_error; eauto.
  - intros H; inversion H; subst. eapply bin_expected_no_input_error; eauto.
Qed.

(** Once both inputs are converted, no "Invalid type of input" error can
    occur any more. *)
Lemma after_conversion_no_input_error (o1 o2 : pdobj) m bins fc reg e :
  (ne <- check_empty o1 o2 ;;
   match ne with
   | None => Ok (NaN, [])
   | Some (X1, X2) =>
       cats <- categorize X1 X2 m bins fc ;;
       Ok (aggregate (fst cats) (snd cats) reg)
   end) = Raise e ->
  is_input_error e = false.
Proof.
  unfold check_empty.
  destruct o1 as [s1|v1]; cbn [obj_empty bind];
    [|intros H; inversion H; reflexivity].
  destruct (s_empty s1); cbn [bind]; [discriminate|].
  destruct o2 as [s2|v2]; cbn [obj_empty bind];
    [|intros H; inversion H; reflexivity].
  destruct (s_empty s2); cbn [bind]; [discriminate|].
  destruct (categorize s1 s2 m bins fc) as [c|e1] eqn:C; cbn [bind];
    [discriminate|].
  intros H; inversion H; subst. eapply categorize_no_input_error; eauto.
Qed.

(** The error "Invalid type of input for X1" is raised exactly when X1 is
    not a Series, a one-dimensional array, a list or a one-column frame;
    the error for X2 exactly when X1 is one of these and X2 is not.  X1 is
    checked first. *)
Theorem psi_calc_invalid_input (X1 X2 : pyinput) (m : option string)
    (bins : bins_arg) (fc : bool) (reg : Q) (prec : Z) :
  (psi_calc X1 X2 m bins fc reg prec = Raise (ValueError msg_invalid_X1)
   <-> acceptable X1 = false)
  /\ (psi_calc X1 X2 m bins fc reg prec = Raise (ValueError msg_invalid_X2)
      <-> acceptable X1 = true /\ acceptable X2 = false).
Proof.
  unfold psi_calc.
  destruct (convert_input_acceptable X1 msg_invalid_X1) as [A1 R1].
  destruct (convert_input_acceptable X2 msg_invalid_X2) as [A2 R2].
  destruct (acceptable X1) eqn:E1.
  - destruct (A1 eq_refl) as [o1 ->]. cbn [bind].
    destruct (acceptable X2) eqn:E2.
    + destruct (A2 eq_refl) as [o2 ->]. cbn [bind].
      split; split; intros H.
      * apply after_conversion_no_input_error in H. discriminate H.
      * discriminate H.
      * apply after_conversion_no_input_error in H. discriminate H.
      * destruct H as [_ H]. discriminate H.
    + rewrite (R2 eq_refl). cbn [bind].
      split; split; intros H.
      * discriminate H.
      * discriminate H.
      * split; reflexivity.
      * reflexivity.
  - rewrite (R1 eq_refl). cbn [bind].
    split; split; intros H.
    + reflexivity.
    + reflexivity.
    + discriminate H.
    + destruct H as [H _]. discriminate H.
Qed.

(** A frame with one column and one row is squeezed to a scalar, which has
    no attribute [empty]: as X1 it makes the emptiness test of line 65 fail
    with an AttributeError; as X2 it does so too, unless X1 is an empty
    sample, in which case [or] never looks at X2 and NaN is returned. *)
Theorem psi_calc_one_cell_frame (v : value) (d : dtype) (X : pyinput)
    (s : Series) (m : option string) (bins : bins_arg) (fc : bool) (reg : Q)
    (prec : Z) :
  (acceptable X = true ->
     psi_calc (InDataFrame 1 (mkSeries d [v])) X m bins fc reg prec
     = Raise (AttributeError msg_no_empty))
  /\ (convert_input X msg_invalid_X1 = Ok (PSeries s) ->
      psi_calc X (InDataFrame 1 (mkSeries d [v])) m bins fc reg prec
      = if s_empty s then Ok (NaN, []) else Raise (AttributeError msg_no_empty)).
Proof.
  split.
  - intros A. unfold psi_calc. cbn [convert_input Nat.eqb squeeze s_values bind].
    destruct (proj1 (convert_input_acceptable X msg_invalid_X2) A) as [o ->].
    reflexivity.
  - intros C. unfold psi_calc. rewrite C.
    cbn [convert_input Nat.eqb squeeze s_values bind].
    unfold check_empty. cbn [obj_empty bind].
    destruct (s_empty s); reflexivity.
Qed.

Lemma psi_calc_one_cell_frame_witness :
  (acceptable (InList sample_1_2_3) = true ->
     psi_calc (InDataFrame 1 (mkSeries d_int [VNum 1])) (InList sample_1_2_3)
              (Some "equidistant") (BinsInt 10) false (1 # 10000) 3
     = Raise (AttributeError msg_no_empty))
  /\ (convert_input (InList sample_1_2_3) msg_invalid_X1
      = Ok (PSeries sample_1_2_3) ->
      psi_calc (InList sample_1_2_3) (InDataFrame 1 (mkSeries d_int [VNum 1]))
               (Some "equidistant") (BinsInt 10) false (1 # 10000) 3
      = if s_empty sample_1_2_3 then Ok (NaN, [])
        else Raise (AttributeError msg_no_empty)).
Proof.
  exact (psi_calc_one_cell_frame (VNum 1) d_int (InList sample_1_2_3)
           sample_1_2_3 (Some "equidistant") (BinsInt 10) false (1 # 10000) 3).
Defined.

(** ** Where exceptions can come from (lines 69-95) *)

(** [categorize] raises only in numerical mode, and then either the type
    assertion fails or the binning fails on sample 1; the values of
    sample 2 play no part.  (For a sample 1 without any number pandas
    fails at the cut of line 95, on the edges of sample 1; the embedding
    fails in [bin_expected], see [nbins_to_bins].) *)
Lemma categorize_raise_iff s1 s2 m bins fc e :
  categorize s1 s2 m bins fc = Raise e
  <-> is_numeric_dtype (s_dtype s1) = true /\ fc = false
      /\ ((is_numeric_dtype (s_dtype s2) = false /\ e = TypeMismatch)
          \/ (is_numeric_dtype (s_dtype s2) = true
              /\ bin_expected (s_values s1) m bins = Raise e)).
Proof.
  unfold categorize.
  destruct (is_numeric_dtype (s_dtype s1)) eqn:N1; cbn [andb].
  2:{ split; [discriminate | intros [H _]; discriminate H]. }
  destruct fc; cbn [negb].
  { split; [discriminate | intros [_ [H _]]; discriminate H]. }
  destruct (is_numeric_dtype (s_dtype s2)) eqn:N2; cbn [py_assert bind].
  - destruct (bin_expected (s_values s1) m bins) as [[cats breaks]|e1] eqn:B;
      cbn [bind fst snd].
    + destruct (second_cut _ _ _ _ _ (s_values s2) B) as [_ P]. rewrite P.
      cbn [bind]. split; [discriminate|].
      intros [_ [_ [[H _]|[_ H]]]]; discriminate H.
    + split.
      * intros H. inversion H; subst. auto.
      * intros [_ [_ [[H _]|[_ H]]]]; [discriminate H|].
        inversion H; reflexivity.
  - split.
    + intros H. inversion H; subst.
      split; [reflexivity|]. split; [reflexivity|]. left. split; reflexivity.
    + intros [_ [_ [[_ ->]|[H _]]]]; [reflexivity | discriminate H].
Qed.

(** Whether [psi_calc] raises, and what, does not depend on the values of
    sample 2: two non-empty samples 2 that agree on having a numerical
    dtype or not give the same exceptions (they come from the type
    assertion and from the edges of sample 1). *)
Theorem psi_calc_raise_independent_of_actual_values (X1 X2 X2' : pyinput)
    (s1 s2 s2' : Series) (m : option string) (bins : bins_arg) (fc : bool)
    (reg : Q) (prec : Z) (e : exn) :
  convert_input X1 msg_invalid_X1 = Ok (PSeries s1) ->
  convert_input X2 msg_invalid_X2 = Ok (PSeries s2) ->
  convert_input X2' msg_invalid_X2 = Ok (PSeries s2') ->
  s_empty s1 = false -> s_empty s2 = false -> s_empty s2' = false ->
  is_numeric_dtype (s_dtype s2) = is_numeric_dtype (s_dtype s2') ->
  (psi_calc X1 X2 m bins fc reg prec = Raise e
   <-> psi_calc X1 X2' m bins fc reg prec = Raise e).
Proof.
  intros H1 H2 H2' E1 E2 E2' D.
  rewrite (psi_calc_nonempty _ _ _ _ _ _ _ _ _ H1 H2 E1 E2).
  rewrite (psi_calc_nonempty _ _ _ _ _ _ _ _ _ H1 H2' E1 E2').
  assert (R : forall s, (cats <- categorize s1 s m bins fc ;;
                         Ok (aggregate (fst cats) (snd cats) reg)) = Raise e
                        <-> categorize s1 s m bins fc = Raise e).
  { intros s. destruct (categorize s1 s m bins fc); cbn [bind];
      split; intros H; try discriminate H; inversion H; reflexivity. }
  rewrite !R, !categorize_raise_iff, D. reflexivity.
Qed.

Lemma psi_calc_raise_independent_of_actual_values_witness :
  psi_calc (InList sample_1_2_3) (InList sample_1_2_3)
           (Some "quantiles") (BinsList [1; 2]) false (1 # 10000) 3
  = Raise (AssertionError msg_quantiles_int)
  <-> psi_calc (InList sample_1_2_3) (InList sample_11122)
               (Some "quantiles") (BinsList [1; 2]) false (1 # 10000) 3
      = Raise (AssertionError msg_quantiles_int).
Proof.
  apply (psi_calc_raise_independent_of_actual_values
           (InList sample_1_2_3) (InList sample_1_2_3) (InList sample_11122)
           sample_1_2_3 sample_1_2_3 sample_11122); reflexivity.
Defined.

(** Equidistant binning with an integer number of bins below 1:
    [pd.cut] rejects the number before it looks at any value, and
    [psi_calc] raises its ValueError on every pair of non-empty numerical
    samples. *)
Theorem psi_calc_equidistant_nonpositive_bins (X1 X2 : pyinput)
    (s1 s2 : Series) (n : Z) (reg : Q) (prec : Z) :
  convert_input X1 msg_invalid_X1 = Ok (PSeries s1) ->
  convert_input X2 msg_invalid_X2 = Ok (PSeries s2) ->
  s_empty s1 = false -> s_empty s2 = false ->
  is_numeric_dtype (s_dtype s1) = true ->
  is_numeric_dtype (s_dtype s2) = true ->
  (n < 1)%Z ->
  psi_calc X1 X2 (Some "equidistant") (BinsInt n) false reg prec
  = Raise (ValueError msg_bins_positive).
Proof.
  intros H1 H2 E1 E2 N1 N2 Hn.
  rewrite (psi_calc_nonempty _ _ _ _ _ _ _ _ _ H1 H2 E1 E2).
  assert (C : categorize s1 s2 (Some "equidistant") (BinsInt n) false
              = Raise (ValueError msg_bins_positive)).
  { apply categorize_raise_iff. repeat split; auto. right. split; auto.
    cbn [bin_expected String.eqb Ascii.eqb Bool.eqb pd_cut].
    unfold nbins_to_bins. apply Z.ltb_lt in Hn. rewrite Hn. reflexivity. }
  rewrite C. reflexivity.
Qed.

Lemma psi_calc_equidistant_nonpositive_bins_witness :
  psi_calc (InArray 1 main_X1) (InArray 1 main_X2)
           (Some "equidistant") (BinsInt 0) false (1 # 10000) 3
  = Raise (ValueError msg_bins_positive).
Proof.
  apply (psi_calc_equidistant_nonpositive_bins
           (InArray 1 main_X1) (InArray 1 main_X2) main_X1 main_X2);
    reflexivity.
Defined.

(** ** Intervals are made of neighbouring edges *)

Lemma searchsorted_left_le (bins : list Q) (x : Q) :
  (searchsorted_left bins x <= List.length bins)%nat.
Proof.
  induction bins as [|b r IH]; simpl; [lia|].
  destruct (Qle_bool x b); lia.
Qed.

(** An interval handed out by the cut is made of two neighbouring edges. *)
Lemma bin_of_index (bins : list Q) (b0 : Q) (v : value) (lo hi : Q) :
  bins <> [] ->
  bin_of bins b0 v = Some (lo, hi) ->
  exists i, (1 <= i < List.length bins)%nat
            /\ lo = nth (i - 1) bins 0 /\ hi = nth i bins 0
            /\ exists x, v = VNum x
                 /\ i = (if Qeq_bool x b0 then 1%nat
                         else searchsorted_left bins x).
Proof.
  intros NE. unfold bin_of.
  destruct v as [x| |s]; cbn [num_of]; try discriminate.
  set (ids := if Qeq_bool x b0 then 1%nat else searchsorted_left bins x).
  destruct (Nat.eqb ids (List.length bins) || Nat.eqb ids 0) eqn:C;
    [discriminate|].
  apply orb_false_iff in C. destruct C as [C1 C2].
  apply Nat.eqb_neq in C1, C2.
  intros H. inversion H. subst lo hi. exists ids.
  assert (L : (ids <= List.length bins)%nat).
  { subst ids. destruct (Qeq_bool x b0); [|apply searchsorted_left_le].
    destruct bins; [congruence | simpl; lia]. }
  split; [lia|]. split; [reflexivity|]. split; [reflexivity|].
  exists x. split; reflexivity.
Qed.

Lemma bin_expected_breaks_nonempty xs m bins cats breaks :
  bin_expected xs m bins = Ok (cats, breaks) ->
  exists b0 rest, breaks = b0 :: rest.
Proof.
  intros H. apply bin_expected_inv in H. destruct H as [bins0 H].
  apply bins_to_cuts_inv in H. destruct H as [b0 [rest [-> _]]]. eauto.
Qed.

(** ** The size of the table in numerical mode *)

Lemma category_of_labels (breaks : list Q) (v : value) :
  breaks <> [] -> In (category_of breaks v) (labels breaks).
Proof.
  intros NE. unfold category_of, labels.
  destruct (bin_of breaks (hd 0 breaks) v) as [[lo hi]|] eqn:E;
    cbn [astype_str]; [|left; reflexivity].
  right. apply bin_of_index in E; [|exact NE].
  destruct E as [i [Hi [-> [-> _]]]].
  apply in_map_iff. exists i. split; [reflexivity|]. apply in_seq. lia.
Qed.

Lemma labels_length (breaks : list Q) :
  breaks <> [] -> List.length (labels breaks) = List.length breaks.
Proof.
  intros NE. unfold labels. cbn [List.length].
  rewrite length_map, length_seq. destruct breaks; [congruence | simpl; lia].
Qed.

Lemma filter_length_le {A : Type} (f : A -> bool) (l : list A) :
  (List.length (filter f l) <= List.length l)%nat.
Proof.
  induction l as [|a r IH]; simpl; [lia|]. destruct (f a); simpl; lia.
Qed.

Lemma unique_length_le (l : list Q) :
  (List.length (unique l) <= List.length l)%nat.
Proof.
  induction l as [|a r IH]; simpl; [lia|].
  pose proof (filter_length_le (fun y => negb (Qeq_bool a y)) (unique r)). lia.
Qed.

Lemma linspace_length (a b : Q) (n : nat) : List.length (linspace a b n) = S n.
Proof. unfold linspace. rewrite length_map, length_seq. reflexivity. Qed.

Lemma nbins_to_bins_length xs n bins0 :
  nbins_to_bins xs n = Ok bins0 -> List.length bins0 = S (Z.to_nat n).
Proof.
  unfold nbins_to_bins. destruct (n <? 1)%Z; [discriminate|].
  destruct (observed xs) as [|o os]; [discriminate|].
  destruct (Qeq_bool _ _).
  - intros H. inversion H. apply linspace_length.
  - pose proof (linspace_length (fold_left qmin os o) (fold_left qmax os o)
                  (Z.to_nat n)) as L.
    destruct (linspace _ _ _); intros H; inversion H; exact L.
Qed.

Lemma bins_to_cuts_breaks_length xs bins0 drop cats breaks :
  bins_to_cuts xs bins0 drop = Ok (cats, breaks) ->
  (List.length breaks <= List.length bins0)%nat.
Proof.
  intros H. apply bins_to_cuts_inv in H.
  destruct H as [b0 [rest [_ [_ [E|[_ E]]]]]]; rewrite E;
    [lia | apply unique_length_le].
Qed.

(** The number of edges kept is bounded by what the caller asked for. *)
Lemma bin_expected_breaks_length xs m bins cats breaks :
  bin_expected xs m bins = Ok (cats, breaks) ->
  match bins with
  | BinsInt n => (List.length breaks <= Z.to_nat n + 1)%nat
  | BinsList l | BinsArray l => (List.length breaks <= List.length l)%nat
  | BinsNone => False
  end.
Proof.
  intros H. unfold bin_expected in H.
  assert (C : forall drop, pd_cut xs bins drop = Ok (cats, breaks) ->
           match bins with
           | BinsInt n => (List.length breaks <= Z.to_nat n + 1)%nat
           | BinsList l | BinsArray l => (List.length breaks <= List.length l)%nat
           | BinsNone => False
           end).
  { intros drop P. apply pd_cut_inv in P. destruct P as [b0 [P Hb]].
    apply bins_to_cuts_breaks_length in P.
    destruct bins as [n|l|l|]; auto.
    - apply nbins_to_bins_length in Hb. lia.
    - destruct Hb as [-> _]. exact P.
    - destruct Hb as [-> _]. exact P. }
  destruct m as [m|].
  - destruct (String.eqb m "equidistant"); [exact (C _ H)|].
    destruct (String.eqb m "quantiles"); [|discriminate H].
    destruct bins as [q|l|l|]; try discriminate H.
    apply pd_qcut_inv in H. destruct H as [_ [_ H]].
    apply bins_to_cuts_breaks_length in H.
    rewrite length_map, linspace_length in H. lia.
  - destruct (is_list_or_array bins); cbn [py_assert bind] in H;
      [exact (C _ H) | discriminate H].
Qed.

(** In numerical mode the table has at most as many rows as there are
    edges: one per interval and one for ["nan"].  For an integer [bins] of
    [n] that is at most [n + 1] rows, for explicit breaks at most as many
    rows as breaks. *)
Theorem numeric_table_size (X1 X2 : pyinput) (s1 s2 : Series)
    (m : option string) (bins : bins_arg) (reg : Q) (prec : Z)
    (psi : float) (tbl : DataFrame) :
  convert_input X1 msg_invalid_X1 = Ok (PSeries s1) ->
  convert_input X2 msg_invalid_X2 = Ok (PSeries s2) ->
  s_empty s1 = false -> s_empty s2 = false ->
  is_numeric_dtype (s_dtype s1) = true ->
  psi_calc X1 X2 m bins false reg prec = Ok (psi, tbl) ->
  match bins with
  | BinsInt n => (List.length tbl <= Z.to_nat n + 1)%nat
  | BinsList l | BinsArray l => (List.length tbl <= List.length l)%nat
  | BinsNone => False
  end.
Proof.
  intros H1 H2 E1 E2 N1 H.
  destruct (psi_calc_result _ _ _ _ _ _ _ _ _ _ _ H1 H2 E1 E2 H)
    as [c1 [c2 [C [_ ->]]]].
  destruct (categorize_numeric_inv _ _ _ _ _ _ N1 C)
    as [N2 [cats [breaks [B [_ [-> ->]]]]]].
  destruct (bin_expected_breaks_nonempty _ _ _ _ _ B) as [b0 [rest Eb]].
  assert (NE : breaks <> []) by (rewrite Eb; discriminate).
  assert (L : (List.length (df0_of (map (category_of breaks) (s_values s1))
                                   (map (category_of breaks) (s_values s2)))
               <= List.length breaks)%nat).
  { rewrite <- (length_map r_key), df0_keys, <- (labels_length breaks NE).
    apply NoDup_incl_length; [apply distinct_NoDup|].
    intros c Hc. unfold spec_categories in Hc.
    apply -> distinct_In in Hc. apply in_app_or in Hc.
    destruct Hc as [Hc|Hc]; apply in_map_iff in Hc;
      destruct Hc as [v [<- _]]; apply category_of_labels; exact NE. }
  pose proof (bin_expected_breaks_length _ _ _ _ _ B) as K.
  destruct bins; auto; lia.
Qed.

Lemma numeric_table_size_witness :
  (List.length (snd main_result_equidistant) <= Z.to_nat 3 + 1)%nat.
Proof.
  apply (numeric_table_size (InArray 1 main_X1) (InArray 1 main_X2)
           main_X1 main_X2 (Some "equidistant") (BinsInt 3) (1 # 10000) 3
           (fst main_result_equidistant)); reflexivity.
Defined.

(** When no element of sample 2 gets an interval (each is missing or
    outside the edges of sample 1), the table has a row ["nan"] whose
    actual frequency is 1, and the actual column is exactly 0 in every
    other row. *)
Theorem actual_outside_all_edges (X1 X2 : pyinput) (s1 s2 : Series)
    (m : option string) (bins : bins_arg) (reg : Q) (prec : Z)
    (psi : float) (tbl : DataFrame) (cats : list (option (Q * Q)))
    (breaks : list Q) :
  convert_input X1 msg_invalid_X1 = Ok (PSeries s1) ->
  convert_input X2 msg_invalid_X2 = Ok (PSeries s2) ->
  s_empty s1 = false -> s_empty s2 = false ->
  is_numeric_dtype (s_dtype s1) = true ->
  psi_calc X1 X2 m bins false reg prec = Ok (psi, tbl) ->
  bin_expected (s_values s1) m bins = Ok (cats, breaks) ->
  (forall v, In v (s_values s2) -> unbinned breaks v = true) ->
  (exists r, In r tbl /\ r_key r = CatNan /\ actual r == 1)
  /\ (forall r, In r tbl ->
        (r_key r = CatNan -> actual r == 1)
        /\ (r_key r <> CatNan -> actual r = 0)).
Proof.
  intros H1 H2 E1 E2 N1 H B U.
  destruct (psi_calc_result _ _ _ _ _ _ _ _ _ _ _ H1 H2 E1 E2 H)
    as [c1 [c2 [C [_ ->]]]].
  destruct (categorize_numeric_inv _ _ _ _ _ _ N1 C)
    as [N2 [cats' [breaks' [B' [_ [Ec1 Ec2]]]]]].
  rewrite B in B'. inversion B'; subst cats' breaks'. clear B'.
  assert (A : forall c, In c c2 -> c = CatNan).
  { intros c Hc. rewrite Ec2 in Hc. apply in_map_iff in Hc.
    destruct Hc as [v [<- Hv]]. apply category_of_unbinned, U, Hv. }
  destruct (categorize_length _ _ _ _ _ _ _ C) as [_ L2].
  pose proof (s_empty_false _ E2) as P2. rewrite <- L2 in P2.
  assert (Cn : count CatNan c2 = List.length c2).
  { clear - A. induction c2 as [|c r IH]; [reflexivity|].
    cbn [count List.length]. rewrite <- (A c (or_introl eq_refl)).
    rewrite category_eqb_refl. f_equal. rewrite (A c (or_introl eq_refl)).
    apply IH. intros d Hd. apply A. right. exact Hd. }
  assert (One : cell0 c2 CatNan == 1).
  { rewrite cell0_freq. unfold freq_of. rewrite Cn. apply Qmult_inv_r.
    apply of_nat_pos in P2. intros Z. rewrite Z in P2.
    apply (Qlt_irrefl 0 P2). }
  split.
  - exists (mkRow CatNan (cell0 c1 CatNan) (cell0 c2 CatNan)).
    split; [|split; [reflexivity | exact One]].
    apply df0_row_exists. right. apply count_pos_iff. lia.
  - intros r Hr. apply df0_row_cells in Hr. destruct Hr as [_ [_ ->]].
    split.
    + intros K. rewrite K. exact One.
    + intros K. unfold cell0.
      assert (Z : count (r_key r) c2 = 0%nat).
      { apply count_zero_iff. intros I. apply K, A, I. }
      rewrite Z. reflexivity.
Qed.

Lemma actual_outside_all_edges_witness :
  (exists r, In r (snd disjoint_result) /\ r_key r = CatNan /\ actual r == 1)
  /\ (forall r, In r (snd disjoint_result) ->
        (r_key r = CatNan -> actual r == 1)
        /\ (r_key r <> CatNan -> actual r = 0)).
Proof.
  apply (actual_outside_all_edges (InList disjoint_X1) (InList disjoint_X2)
           disjoint_X1 disjoint_X2 (Some "equidistant") (BinsInt 3)
           (1 # 10000) 3 (fst disjoint_result) (snd disjoint_result)
           (map (bin_of disjoint_breaks (hd 0 disjoint_breaks))
                (s_values disjoint_X1))
           disjoint_breaks).
  - reflexivity.
  - reflexivity.
  - reflexivity.
  - reflexivity.
  - reflexivity.
  - reflexivity.
  - reflexivity.
  - intros v Hv. cbn in Hv.
    destruct Hv as [<-|[<-|[<-|[<-|[]]]]]; reflexivity.
Defined.

(** ** The role of the regulariser (lines 106-111) *)

Lemma psi_term_term_R (r : row Q) :
  0 < expected r -> 0 < actual r -> psi_term r = Fin (term_R r).
Proof.
  intros He Ha. destruct r as [c e a]. cbn [expected actual] in *.
  apply psi_term_positive; assumption.
Qed.

Lemma fold_left_Rplus_ge (ts : list R) (acc : R) :
  (forall t, In t ts -> (0 <= t)%R) -> (acc <= fold_left Rplus ts acc)%R.
Proof.
  revert acc. induction ts as [|t r IH]; intros acc H; cbn [fold_left].
  - apply Rle_refl.
  - pose proof (H t (or_introl eq_refl)).
    apply Rle_trans with (acc + t)%R; [lra|].
    apply IH. intros u Hu. apply H. right. exact Hu.
Qed.

Lemma fold_left_Rplus_zero_inv (ts : list R) (acc : R) :
  (0 <= acc)%R -> (forall t, In t ts -> (0 <= t)%R) ->
  fold_left Rplus ts acc = 0%R ->
  acc = 0%R /\ forall t, In t ts -> t = 0%R.
Proof.
  revert acc. induction ts as [|t r IH]; intros acc Ha H S; cbn [fold_left] in S.
  - split; [exact S | intros t []].
  - pose proof (H t (or_introl eq_refl)) as Ht.
    destruct (IH (acc + t)%R) as [Z A]; [lra | | exact S |].
    { intros u Hu. apply H. right. exact Hu. }
    split; [lra|]. intros u [<-|Hu]; [lra | apply A; exact Hu].
Qed.

(** With a positive regulariser the PSI value is 0 only when the two
    regularised columns coincide. *)
Lemma aggregate_zero_iff (X1 X2 : list category) (reg : Q) :
  0 < reg ->
  (fst (aggregate X1 X2 reg) = Fin 0%R
   <-> forall r, In r (replace 0 reg (snd (aggregate X1 X2 reg))) ->
         expected r == actual r).
Proof.
  intros Hr. rewrite aggregate_unfold. cbn [fst snd].
  set (df1 := replace 0 reg (df0_of X1 X2)).
  assert (P : forall r, In r df1 -> 0 < expected r /\ 0 < actual r).
  { intros r H. apply (df1_positive X1 X2 reg r Hr H). }
  assert (E : map psi_term df1 = map Fin (map term_R df1)).
  { rewrite map_map. apply map_ext_in. intros r H.
    destruct (P r H). apply psi_term_term_R; assumption. }
  assert (T : forall r, In r df1 ->
                (0 <= term_R r)%R /\ (term_R r = 0%R <-> expected r == actual r)).
  { intros r H. destruct (P r H) as [He Ha].
    destruct (psi_term_nonneg r He Ha) as [t [Et [T0 Tz]]].
    rewrite (psi_term_term_R r He Ha) in Et. inversion Et. subst t.
    split; assumption. }
  rewrite E. unfold py_sum. rewrite py_sum_acc. split.
  - intros S r H. inversion S as [S'].
    apply fold_left_Rplus_zero_inv in S'.
    + destruct S' as [_ A]. apply (T r H). apply A. apply in_map. exact H.
    + apply Rle_refl.
    + intros t Ht. apply in_map_iff in Ht. destruct Ht as [r' [<- Hr']].
      apply (T r' Hr').
  - intros A. f_equal. apply fold_left_Rplus_zero.
    intros t Ht. apply in_map_iff in Ht. destruct Ht as [r' [<- Hr']].
    apply (T r' Hr'). apply A. exact Hr'.
Qed.

(** For a positive regulariser: PSI is 0 exactly when, in every row, the
    regularised expected and actual frequencies are equal; any row where
    they differ makes it positive. *)
Theorem psi_zero_iff_no_drift (X1 X2 : pyinput) (s1 s2 : Series)
    (m : option string) (bins : bins_arg) (fc : bool) (reg : Q) (prec : Z)
    (psi : float) (tbl : DataFrame) :
  convert_input X1 msg_invalid_X1 = Ok (PSeries s1) ->
  convert_input X2 msg_invalid_X2 = Ok (PSeries s2) ->
  s_empty s1 = false -> s_empty s2 = false ->
  0 < reg ->
  psi_calc X1 X2 m bins fc reg prec = Ok (psi, tbl) ->
  (psi = Fin 0%R
   <-> forall r, In r (replace 0 reg tbl) -> expected r == actual r).
Proof.
  intros H1 H2 E1 E2 Hr H.
  destruct (psi_calc_result _ _ _ _ _ _ _ _ _ _ _ H1 H2 E1 E2 H)
    as [c1 [c2 [_ [-> ->]]]].
  apply (aggregate_zero_iff c1 c2 reg Hr).
Qed.

Lemma psi_zero_iff_no_drift_witness :
  fst (aggregate cats_11122 cats_11111 (1 # 10000)) = Fin 0%R
  <-> forall r, In r (replace 0 (1 # 10000)
                        (snd (aggregate cats_11122 cats_11111 (1 # 10000)))) ->
        expected r == actual r.
Proof.
  apply (psi_zero_iff_no_drift (InList sample_11122) (InList sample_11111)
           sample_11122 sample_11111 (Some "equidistant") (BinsInt 10) true
           (1 # 10000) 3); reflexivity.
Defined.

Lemma replace_cell_keep (old new c : Q) :
  ~ c == old -> replace_cell old new c = c.
Proof.
  intros H. unfold replace_cell. destruct (Qeq_bool c old) eqn:E; [|reflexivity].
  apply Qeq_bool_iff in E. contradiction.
Qed.

(** When the returned table has no zero cell (every category was observed
    in both samples) the regulariser plays no role: any other regulariser
    gives the same PSI value and table. *)
Theorem regulariser_unused_without_empty_cells (X1 X2 : pyinput)
    (s1 s2 : Series) (m : option string) (bins : bins_arg) (fc : bool)
    (reg reg' : Q) (prec : Z) (psi : float) (tbl : DataFrame) :
  convert_input X1 msg_invalid_X1 = Ok (PSeries s1) ->
  convert_input X2 msg_invalid_X2 = Ok (PSeries s2) ->
  s_empty s1 = false -> s_empty s2 = false ->
  psi_calc X1 X2 m bins fc reg prec = Ok (psi, tbl) ->
  (forall r, In r tbl -> ~ expected r == 0 /\ ~ actual r == 0) ->
  psi_calc X1 X2 m bins fc reg' prec = Ok (psi, tbl).
Proof.
  intros H1 H2 E1 E2 H NZ.
  destruct (psi_calc_result _ _ _ _ _ _ _ _ _ _ _ H1 H2 E1 E2 H)
    as [c1 [c2 [C [-> ->]]]].
  rewrite (psi_calc_nonempty _ _ _ _ _ _ _ _ _ H1 H2 E1 E2), C.
  cbn [bind fst snd]. rewrite !aggregate_unfold. cbn [fst].
  assert (E : replace 0 reg' (df0_of c1 c2) = replace 0 reg (df0_of c1 c2)).
  { unfold replace. apply map_ext_in. intros r Hr.
    destruct (NZ r Hr) as [Ze Za].
    rewrite !(replace_cell_keep 0) by assumption. reflexivity. }
  rewrite E. reflexivity.
Qed.

Lemma regulariser_unused_without_empty_cells_witness :
  psi_calc (InArray 1 main_X1) (InArray 1 main_X2)
           (Some "equidistant") (BinsInt 3) false 5 3
  = Ok (fst main_result_equidistant, snd main_result_equidistant).
Proof.
  apply (regulariser_unused_without_empty_cells
           (InArray 1 main_X1) (InArray 1 main_X2) main_X1 main_X2
           (Some "equidistant") (BinsInt 3) false (1 # 10000) 5 3
           (fst main_result_equidistant) (snd main_result_equidistant)).
  - reflexivity.
  - reflexivity.
  - reflexivity.
  - reflexivity.
  - reflexivity.
  - intros r Hr. unfold main_result_equidistant in Hr.
    rewrite aggregate_unfold in Hr. cbn [snd] in Hr. vm_compute in Hr.
    destruct Hr as [<-|[<-|[<-|[<-|[]]]]]; split; discriminate.
Defined.

Lemma is_zero_true (a : R) : a = 0%R -> is_zero a = true.
Proof. intros H. unfold is_zero. destruct (Req_dec_T a 0); tauto. Qed.

Lemma is_neg_true (a : R) : (a < 0)%R -> is_neg a = true.
Proof. intros H. unfold is_neg. destruct (Rlt_dec a 0); tauto. Qed.

Lemma Q2R_zero (a : Q) : a == 0 -> Q2R a = 0%R.
Proof. intros H. rewrite (Qeq_eqR _ _ H). apply RMicromega.Q2R_0. Qed.

Lemma Q2R_pos (a : Q) : 0 < a -> (0 < Q2R a)%R.
Proof. intros H. apply Qlt_Rlt in H. rewrite RMicromega.Q2R_0 in H. exact H. Qed.

Lemma Q2R_neg (a : Q) : a < 0 -> (Q2R a < 0)%R.
Proof. intros H. apply Qlt_Rlt in H. rewrite RMicromega.Q2R_0 in H. exact H. Qed.

(** A frequency against a zero: the term is plus infinity. *)
Lemma psi_term_zero_actual (c : category) (e a : Q) :
  0 < e -> a == 0 -> psi_term (mkRow c e a) = Inf false.
Proof.
  intros He Ha. apply Q2R_pos in He. apply Q2R_zero in Ha.
  unfold psi_term, float_of_Q. cbn [expected actual fsub fdiv].
  rewrite Ha, (is_zero_true 0%R eq_refl), (is_zero_false (Q2R e)) by lra.
  rewrite (is_neg_false (Q2R e)) by lra. cbn [flog fmul].
  rewrite (is_zero_false (Q2R e - 0)) by lra.
  rewrite (is_neg_false (Q2R e - 0)) by lra. reflexivity.
Qed.

Lemma psi_term_zero_expected (c : category) (e a : Q) :
  e == 0 -> 0 < a -> psi_term (mkRow c e a) = Inf false.
Proof.
  intros He Ha. apply Q2R_zero in He. apply Q2R_pos in Ha.
  unfold psi_term, float_of_Q. cbn [expected actual fsub fdiv].
  rewrite He, (is_zero_false (Q2R a)) by lra. cbn [flog].
  assert (Z : (0 / Q2R a = 0)%R) by (unfold Rdiv; ring).
  rewrite (is_zero_true _ Z). cbn [fmul].
  rewrite (is_zero_false (0 - Q2R a)) by lra.
  rewrite (is_neg_true (0 - Q2R a)) by lra. reflexivity.
Qed.

(** A frequency against a negative number: the term is NaN. *)
Lemma psi_term_negative_actual (c : category) (e a : Q) :
  0 < e -> a < 0 -> psi_term (mkRow c e a) = NaN.
Proof.
  intros He Ha. apply Q2R_pos in He. apply Q2R_neg in Ha.
  unfold psi_term, float_of_Q. cbn [expected actual fsub fdiv].
  rewrite (is_zero_false (Q2R a)) by lra. cbn [flog].
  assert (N : (Q2R e / Q2R a < 0)%R).
  { unfold Rdiv. apply Rmult_pos_neg; [exact He|].
    apply Rinv_lt_0_compat. exact Ha. }
  rewrite (is_zero_false (Q2R e / Q2R a)) by lra.
  rewrite (is_neg_true _ N). reflexivity.
Qed.

Lemma psi_term_negative_expected (c : category) (e a : Q) :
  e < 0 -> 0 < a -> psi_term (mkRow c e a) = NaN.
Proof.
  intros He Ha. apply Q2R_neg in He. apply Q2R_pos in Ha.
  unfold psi_term, float_of_Q. cbn [expected actual fsub fdiv].
  rewrite (is_zero_false (Q2R a)) by lra. cbn [flog].
  assert (N : (Q2R e / Q2R a < 0)%R).
  { unfold Rdiv. apply Rmult_neg_pos; [exact He|].
    apply Rinv_0_lt_compat. exact Ha. }
  rewrite (is_zero_false (Q2R e / Q2R a)) by lra.
  rewrite (is_neg_true _ N). reflexivity.
Qed.

Lemma fold_fadd_NaN (l : list float) : fold_left fadd l NaN = NaN.
Proof. induction l as [|x r IH]; [reflexivity | exact IH]. Qed.

Lemma py_sum_NaN (l : list float) : In NaN l -> py_sum l = NaN.
Proof.
  unfold py_sum. generalize (Fin 0%R) as acc.
  induction l as [|x r IH]; intros acc H; [destruct H|].
  cbn [fold_left]. destruct H as [->|H]; [|apply IH; exact H].
  replace (fadd acc NaN) with NaN by (destruct acc; reflexivity).
  apply fold_fadd_NaN.
Qed.

Lemma fold_fadd_Inf (l : list float) :
  (forall x, In x l -> (exists t, x = Fin t) \/ x = Inf false) ->
  fold_left fadd l (Inf false) = Inf false.
Proof.
  induction l as [|x r IH]; intros H; [reflexivity|].
  cbn [fold_left].
  destruct (H x (or_introl eq_refl)) as [[t ->]| ->]; cbn [fadd Bool.eqb];
    apply IH; intros y Hy; apply H; right; exact Hy.
Qed.

Lemma py_sum_Inf (l : list float) :
  (forall x, In x l -> (exists t, x = Fin t) \/ x = Inf false) ->
  In (Inf false) l -> py_sum l = Inf false.
Proof.
  unfold py_sum. generalize 0%R as acc.
  induction l as [|x r IH]; intros acc G H; [destruct H|].
  assert (G' : forall y, In y r -> (exists t, y = Fin t) \/ y = Inf false).
  { intros y Hy. apply G. right. exact Hy. }
  cbn [fold_left]. destruct H as [->|H].
  - cbn [fadd]. apply fold_fadd_Inf. exact G'.
  - destruct (G x (or_introl eq_refl)) as [[t ->]| ->]; cbn [fadd].
    + apply IH; assumption.
    + apply fold_fadd_Inf. exact G'.
Qed.

(** The two cells of a row of [df0]: each positive or exactly 0, and not
    both 0. *)
Lemma df0_row_signs (X1 X2 : list category) (r : row Q) :
  In r (df0_of X1 X2) ->
  (0 < expected r \/ expected r = 0) /\ (0 < actual r \/ actual r = 0)
  /\ (0 < expected r \/ 0 < actual r).
Proof.
  intros H. apply df0_row_cells in H. destruct H as [K [-> ->]].
  apply -> distinct_In in K. apply in_app_or in K.
  destruct (cell0_cases X1 (r_key r)) as [[C1 [_ P1]]|[C1 Z1]];
    destruct (cell0_cases X2 (r_key r)) as [[C2 [_ P2]]|[C2 Z2]]; auto.
  exfalso. destruct K as [K|K]; apply count_pos_iff in K; lia.
Qed.

(** Without regularisation (a regulariser of 0) the PSI value is plus
    infinity as soon as the table has a zero cell, that is, a category
    observed in one sample only. *)
Theorem zero_regulariser_gives_infinity (X1 X2 : pyinput) (s1 s2 : Series)
    (m : option string) (bins : bins_arg) (fc : bool) (reg : Q) (prec : Z)
    (psi : float) (tbl : DataFrame) :
  convert_input X1 msg_invalid_X1 = Ok (PSeries s1) ->
  convert_input X2 msg_invalid_X2 = Ok (PSeries s2) ->
  s_empty s1 = false -> s_empty s2 = false ->
  reg == 0 ->
  psi_calc X1 X2 m bins fc reg prec = Ok (psi, tbl) ->
  (exists r, In r tbl /\ (expected r = 0 \/ actual r = 0)) ->
  psi = Inf false.
Proof.
  intros H1 H2 E1 E2 Hreg H [r0 [Hr0 Z0]].
  destruct (psi_calc_result _ _ _ _ _ _ _ _ _ _ _ H1 H2 E1 E2 H)
    as [c1 [c2 [_ [-> ->]]]].
  rewrite aggregate_unfold. cbn [fst].
  assert (T : forall r, In r (df0_of c1 c2) ->
                let r' := mkRow (r_key r) (replace_cell 0 reg (expected r))
                                (replace_cell 0 reg (actual r)) in
                ((exists t, psi_term r' = Fin t) \/ psi_term r' = Inf false)
                /\ (expected r = 0 \/ actual r = 0 -> psi_term r' = Inf false)).
  { intros r Hr. destruct (df0_row_signs _ _ _ Hr) as [[Pe|Ze] [[Pa|Za] B]].
    - cbn zeta. rewrite !replace_cell_nonzero by assumption. split.
      + left. eexists. apply psi_term_positive; assumption.
      + intros [Z|Z]; rewrite Z in *; [destruct (Qlt_irrefl _ Pe)
                                      | destruct (Qlt_irrefl _ Pa)].
    - cbn zeta. rewrite Za, replace_cell_nonzero by assumption.
      assert (E : psi_term (mkRow (r_key r) (expected r) (replace_cell 0 reg 0))
                  = Inf false).
      { apply psi_term_zero_actual; [exact Pe|].
        unfold replace_cell. cbn. exact Hreg. }
      split; [right; exact E | intros _; exact E].
    - cbn zeta. rewrite Ze, (replace_cell_nonzero reg (actual r)) by assumption.
      assert (E : psi_term (mkRow (r_key r) (replace_cell 0 reg 0) (actual r))
                  = Inf false).
      { apply psi_term_zero_expected; [|exact Pa].
        unfold replace_cell. cbn. exact Hreg. }
      split; [right; exact E | intros _; exact E].
    - exfalso. rewrite Ze, Za in B. destruct B as [B|B];
        destruct (Qlt_irrefl _ B). }
  apply py_sum_Inf.
  - intros x Hx. apply in_map_iff in Hx. destruct Hx as [r' [<- Hr']].
    unfold replace in Hr'. apply in_map_iff in Hr'.
    destruct Hr' as [r [<- Hr]]. apply (T r Hr).
  - apply in_map_iff.
    exists (mkRow (r_key r0) (replace_cell 0 reg (expected r0))
                  (replace_cell 0 reg (actual r0))).
    split; [apply (T r0 Hr0); exact Z0|].
    unfold replace. apply in_map_iff. exists r0. split; [reflexivity | exact Hr0].
Qed.

(** With a negative regulariser the PSI value is NaN as soon as the table
    has a zero cell: the logarithm of a negative ratio. *)
Theorem negative_regulariser_gives_nan (X1 X2 : pyinput) (s1 s2 : Series)
    (m : option string) (bins : bins_arg) (fc : bool) (reg : Q) (prec : Z)
    (psi : float) (tbl : DataFrame) :
  convert_input X1 msg_invalid_X1 = Ok (PSeries s1) ->
  convert_input X2 msg_invalid_X2 = Ok (PSeries s2) ->
  s_empty s1 = false -> s_empty s2 = false ->
  reg < 0 ->
  psi_calc X1 X2 m bins fc reg prec = Ok (psi, tbl) ->
  (exists r, In r tbl /\ (expected r = 0 \/ actual r = 0)) ->
  psi = NaN.
Proof.
  intros H1 H2 E1 E2 Hreg H [r0 [Hr0 Z0]].
  destruct (psi_calc_result _ _ _ _ _ _ _ _ _ _ _ H1 H2 E1 E2 H)
    as [c1 [c2 [_ [-> ->]]]].
  rewrite aggregate_unfold. cbn [fst]. apply py_sum_NaN.
  apply in_map_iff.
  exists (mkRow (r_key r0) (replace_cell 0 reg (expected r0))
                (replace_cell 0 reg (actual r0))).
  split.
  - destruct (df0_row_signs _ _ _ Hr0) as [[Pe|Ze] [[Pa|Za] B]].
    + exfalso. destruct Z0 as [Z|Z]; rewrite Z in *;
        [destruct (Qlt_irrefl _ Pe) | destruct (Qlt_irrefl _ Pa)].
    + rewrite Za, replace_cell_nonzero by assumption.
      apply psi_term_negative_actual; [exact Pe | exact Hreg].
    + rewrite Ze, (replace_cell_nonzero reg (actual r0)) by assumption.
      apply psi_term_negative_expected; [exact Hreg | exact Pa].
    + exfalso. rewrite Ze, Za in B. destruct B as [B|B];
        destruct (Qlt_irrefl _ B).
  - unfold replace. apply in_map_iff. exists r0. split; [reflexivity | exact Hr0].
Qed.

Lemma zero_regulariser_gives_infinity_witness :
  fst (aggregate cats_11122 cats_11111 0) = Inf false.
Proof.
  apply (zero_regulariser_gives_infinity
           (InList sample_11122) (InList sample_11111)
           sample_11122 sample_11111 (Some "equidistant") (BinsInt 10) true
           0 3 _ (snd (aggregate cats_11122 cats_11111 0))).
  - reflexivity.
  - reflexivity.
  - reflexivity.
  - reflexivity.
  - reflexivity.
  - reflexivity.
  - exists (mkRow (CatRaw (VNum 2)) (of_nat 2 / of_nat 5) 0).
    split; [right; left; reflexivity | right; reflexivity].
Defined.

Lemma negative_regulariser_gives_nan_witness :
  fst (aggregate cats_11122 cats_11111 (- (1 # 10000))) = NaN.
Proof.
  apply (negative_regulariser_gives_nan
           (InList sample_11122) (InList sample_11111)
           sample_11122 sample_11111 (Some "equidistant") (BinsInt 10) true
           (- (1 # 10000)) 3 _
           (snd (aggregate cats_11122 cats_11111 (- (1 # 10000))))).
  - reflexivity.
  - reflexivity.
  - reflexivity.
  - reflexivity.
  - reflexivity.
  - reflexivity.
  - exists (mkRow (CatRaw (VNum 2)) (of_nat 2 / of_nat 5) 0).
    split; [right; left; reflexivity | right; reflexivity].
Defined.

(** ** Order of the observations, order of the samples (lines 99-111) *)

Lemma fadd_comm (x y : float) : fadd x y = fadd y x.
Proof.
  destruct x as [|s|a], y as [|t|b]; cbn [fadd]; try reflexivity.
  - destruct s, t; reflexivity.
  - f_equal. apply Rplus_comm.
Qed.

Lemma fadd_assoc (x y z : float) : fadd (fadd x y) z = fadd x (fadd y z).
Proof.
  destruct x as [|s|a], y as [|t|b], z as [|u|c]; cbn [fadd];
    try reflexivity;
    try (destruct s); try (destruct t); try (destruct u); cbn [fadd Bool.eqb];
    try reflexivity.
  f_equal. apply Rplus_assoc.
Qed.

Lemma fold_fadd_perm (l l' : list float) :
  Permutation l l' -> forall acc, fold_left fadd l acc = fold_left fadd l' acc.
Proof.
  induction 1 as [|x l l' P IH|x y l|l l' l'' P1 IH1 P2 IH2]; intros acc;
    cbn [fold_left].
  - reflexivity.
  - apply IH.
  - f_equal. rewrite !fadd_assoc. f_equal. apply fadd_comm.
  - rewrite IH1. apply IH2.
Qed.

(** Python's [sum] does not depend on the order of the rows (no rounding
    in this model). *)
Lemma py_sum_perm (l l' : list float) :
  Permutation l l' -> py_sum l = py_sum l'.
Proof. intros P. apply fold_fadd_perm. exact P. Qed.

Lemma count_perm (c : category) (l l' : list category) :
  Permutation l l' -> count c l = count c l'.
Proof.
  induction 1 as [|x l l' P IH|x y l|l l' l'' P1 IH1 P2 IH2]; cbn [count].
  - reflexivity.
  - rewrite IH. reflexivity.
  - destruct (category_eqb c y), (category_eqb c x); reflexivity.
  - congruence.
Qed.

Lemma cell0_ext (X X' : list category) (c : category) :
  count c X = count c X' -> List.length X = List.length X' ->
  cell0 X c = cell0 X' c.
Proof. intros C L. unfold cell0, freq_of. rewrite C, L. reflexivity. Qed.

Lemma distinct_union_perm (X1 X2 Y1 Y2 : list category) :
  (forall c, In c (X1 ++ X2) <-> In c (Y1 ++ Y2)) ->
  Permutation (distinct (X1 ++ X2)) (distinct (Y1 ++ Y2)).
Proof.
  intros H. apply NoDup_Permutation; try apply distinct_NoDup.
  intros c. rewrite !distinct_In. apply H.
Qed.

(** The result depends on the two samples only through the counts of
    their categories: samples with the same counts give the same PSI value
    and the same rows. *)
Lemma aggregate_same_counts (X1 X2 Y1 Y2 : list category) (reg : Q) :
  (forall c, count c X1 = count c Y1) -> List.length X1 = List.length Y1 ->
  (forall c, count c X2 = count c Y2) -> List.length X2 = List.length Y2 ->
  fst (aggregate X1 X2 reg) = fst (aggregate Y1 Y2 reg)
  /\ Permutation (snd (aggregate X1 X2 reg)) (snd (aggregate Y1 Y2 reg)).
Proof.
  intros C1 L1 C2 L2. rewrite !aggregate_unfold. cbn [fst snd].
  assert (P : Permutation (df0_of X1 X2) (df0_of Y1 Y2)).
  { rewrite !df0_rows.
    rewrite (map_ext (fun c => mkRow c (cell0 X1 c) (cell0 X2 c))
                     (fun c => mkRow c (cell0 Y1 c) (cell0 Y2 c))).
    2:{ intros c. rewrite (cell0_ext X1 Y1), (cell0_ext X2 Y2); auto. }
    apply Permutation_map, distinct_union_perm.
    intros c. rewrite !in_app_iff, <- !count_pos_iff, C1, C2. reflexivity. }
  split; [|exact P].
  apply py_sum_perm, Permutation_map. unfold replace.
  apply Permutation_map. exact P.
Qed.

(** Categorical data: reordering the observations inside either sample
    changes neither the PSI value nor the rows of the table (only their
    order may change). *)
Theorem categorical_order_of_observations (X1 X2 Y1 Y2 : pyinput)
    (s1 s2 t1 t2 : Series) (m : option string) (bins : bins_arg) (fc : bool)
    (reg : Q) (prec : Z) :
  convert_input X1 msg_invalid_X1 = Ok (PSeries s1) ->
  convert_input X2 msg_invalid_X2 = Ok (PSeries s2) ->
  convert_input Y1 msg_invalid_X1 = Ok (PSeries t1) ->
  convert_input Y2 msg_invalid_X2 = Ok (PSeries t2) ->
  Permutation (s_values s1) (s_values t1) ->
  Permutation (s_values s2) (s_values t2) ->
  fc = true
  \/ (is_numeric_dtype (s_dtype s1) = false
      /\ is_numeric_dtype (s_dtype t1) = false) ->
  exists psi tbl tbl',
    psi_calc X1 X2 m bins fc reg prec = Ok (psi, tbl)
    /\ psi_calc Y1 Y2 m bins fc reg prec = Ok (psi, tbl')
    /\ Permutation tbl tbl'.
Proof.
  intros H1 H2 G1 G2 P1 P2 HC.
  assert (HCs : is_numeric_dtype (s_dtype s1) = false \/ fc = true) by tauto.
  assert (HCt : is_numeric_dtype (s_dtype t1) = false \/ fc = true) by tauto.
  destruct (psi_calc_no_check_when_categorical_aux X1 X2 s1 s2 m bins fc reg
              prec H1 H2 HCs) as [_ ->].
  destruct (psi_calc_no_check_when_categorical_aux Y1 Y2 t1 t2 m bins fc reg
              prec G1 G2 HCt) as [_ ->].
  assert (E : forall s t, Permutation (s_values s) (s_values t) ->
                          s_empty s = s_empty t).
  { intros s t P. unfold s_empty. destruct (s_values s) as [|a r].
    - apply Permutation_nil in P. rewrite P. reflexivity.
    - destruct (s_values t); [|reflexivity].
      apply Permutation_sym, Permutation_nil in P. discriminate P. }
  rewrite <- (E s1 t1 P1), <- (E s2 t2 P2).
  destruct (s_empty s1 || s_empty s2).
  - exists NaN, [], []. auto.
  - pose proof (Permutation_map raw_key P1) as Q1.
    pose proof (Permutation_map raw_key P2) as Q2.
    destruct (aggregate_same_counts
                (map raw_key (s_values s1)) (map raw_key (s_values s2))
                (map raw_key (s_values t1)) (map raw_key (s_values t2)) reg)
      as [Ev Et].
    + intros c. apply count_perm. exact Q1.
    + apply Permutation_length. exact Q1.
    + intros c. apply count_perm. exact Q2.
    + apply Permutation_length. exact Q2.
    + eexists. eexists. eexists.
      split; [apply f_equal, surjective_pairing|].
      split; [rewrite Ev; apply f_equal, surjective_pairing | exact Et].
Qed.

Lemma categorical_order_of_observations_witness :
  exists psi tbl tbl',
    psi_calc (InList sample_11122) (InList sample_11111)
             (Some "equidistant") (BinsInt 10) true (1 # 10000) 3
    = Ok (psi, tbl)
    /\ psi_calc (InList sample_21121) (InList sample_11111)
                (Some "equidistant") (BinsInt 10) true (1 # 10000) 3
       = Ok (psi, tbl')
    /\ Permutation tbl tbl'.
Proof.
  apply (categorical_order_of_observations
           (InList sample_11122) (InList sample_11111)
           (InList sample_21121) (InList sample_11111)
           sample_11122 sample_11111 sample_21121 sample_11111).
  - reflexivity.
  - reflexivity.
  - reflexivity.
  - reflexivity.
  - cbn [s_values sample_11122 sample_21121].
    apply Permutation_sym.
    apply (perm_trans (l' := [VNum 1; VNum 2; VNum 1; VNum 2; VNum 1]));
      [apply perm_swap|].
    apply perm_skip.
    apply (perm_trans (l' := [VNum 1; VNum 2; VNum 2; VNum 1]));
      [apply perm_swap|].
    apply perm_skip. apply Permutation_sym.
    apply (perm_trans (l' := [VNum 2; VNum 1; VNum 2])); [apply perm_swap|].
    apply perm_skip. apply perm_swap.
  - apply Permutation_refl.
  - left. reflexivity.
Defined.

Lemma psi_term_sym (c c' : category) (e a : Q) :
  0 < e -> 0 < a -> psi_term (mkRow c e a) = psi_term (mkRow c' a e).
Proof.
  intros He Ha. rewrite !psi_term_positive by assumption. f_equal.
  apply Q2R_pos in He, Ha.
  replace (Q2R a / Q2R e)%R with (/ (Q2R e / Q2R a))%R by (field; lra).
  rewrite ln_Rinv by (apply Rdiv_lt_0_compat; assumption). ring.
Qed.

Lemma convert_input_msg (X : pyinput) (msg msg' : string) (o : pdobj) :
  convert_input X msg = Ok o -> convert_input X msg' = Ok o.
Proof.
  destruct X as [s|n s|s|n c|]; cbn [convert_input];
    try destruct (Nat.eqb n 1); intros H; try discriminate H; exact H.
Qed.

(** Exchanging the two category sequences: same PSI value for a positive
    regulariser, same rows with the columns exchanged. *)
Lemma aggregate_swap (X1 X2 : list category) (reg : Q) :
  0 < reg ->
  fst (aggregate X2 X1 reg) = fst (aggregate X1 X2 reg)
  /\ Permutation (snd (aggregate X2 X1 reg))
                 (map swap_row (snd (aggregate X1 X2 reg))).
Proof.
  intros Hr. rewrite !aggregate_unfold. cbn [fst snd].
  assert (K : Permutation (distinct (X2 ++ X1)) (distinct (X1 ++ X2))).
  { apply distinct_union_perm. intros c. rewrite !in_app_iff. tauto. }
  assert (P : Permutation (df0_of X2 X1) (map swap_row (df0_of X1 X2))).
  { rewrite !df0_rows, map_map. unfold swap_row. cbn [r_key expected actual].
    apply Permutation_map. exact K. }
  split; [|exact P].
  unfold replace.
  rewrite (py_sum_perm _ _ (Permutation_map psi_term
                              (Permutation_map _ P))).
  rewrite !map_map. f_equal. apply map_ext_in.
  intros r Hin. unfold swap_row. cbn [r_key expected actual].
  apply df0_row_cells in Hin. destruct Hin as [_ [-> ->]].
  apply psi_term_sym; apply replace_cell_pos; auto using cell0_nonneg.
Qed.

(** Categorical data and a positive regulariser: exchanging expected and
    actual sample leaves the PSI value unchanged, and the table is the same
    with its two columns exchanged (rows possibly in another order). *)
Theorem categorical_swap_symmetry (X1 X2 : pyinput) (s1 s2 : Series)
    (m : option string) (bins : bins_arg) (fc : bool) (reg : Q) (prec : Z) :
  convert_input X1 msg_invalid_X1 = Ok (PSeries s1) ->
  convert_input X2 msg_invalid_X2 = Ok (PSeries s2) ->
  fc = true
  \/ (is_numeric_dtype (s_dtype s1) = false
      /\ is_numeric_dtype (s_dtype s2) = false) ->
  0 < reg ->
  exists psi tbl tbl',
    psi_calc X1 X2 m bins fc reg prec = Ok (psi, tbl)
    /\ psi_calc X2 X1 m bins fc reg prec = Ok (psi, tbl')
    /\ Permutation tbl' (map swap_row tbl).
Proof.
  intros H1 H2 HC Hr.
  assert (HC1 : is_numeric_dtype (s_dtype s1) = false \/ fc = true) by tauto.
  assert (HC2 : is_numeric_dtype (s_dtype s2) = false \/ fc = true) by tauto.
  pose proof (convert_input_msg _ _ msg_invalid_X2 _ H1) as H1'.
  pose proof (convert_input_msg _ _ msg_invalid_X1 _ H2) as H2'.
  destruct (psi_calc_no_check_when_categorical_aux X1 X2 s1 s2 m bins fc reg
              prec H1 H2 HC1) as [_ ->].
  destruct (psi_calc_no_check_when_categorical_aux X2 X1 s2 s1 m bins fc reg
              prec H2' H1' HC2) as [_ ->].
  rewrite (orb_comm (s_empty s2)).
  destruct (s_empty s1 || s_empty s2).
  - exists NaN, [], []. auto.
  - destruct (aggregate_swap (map raw_key (s_values s1))
                             (map raw_key (s_values s2)) reg Hr) as [Ev Et].
    eexists. eexists. eexists.
    split; [apply f_equal, surjective_pairing|].
    split; [rewrite <- Ev; apply f_equal, surjective_pairing | exact Et].
Qed.

Lemma categorical_swap_symmetry_witness :
  exists psi tbl tbl',
    psi_calc (InList sample_11122) (InList sample_11111)
             (Some "equidistant") (BinsInt 10) true (1 # 10000) 3
    = Ok (psi, tbl)
    /\ psi_calc (InList sample_11111) (InList sample_11122)
                (Some "equidistant") (BinsInt 10) true (1 # 10000) 3
       = Ok (psi, tbl')
    /\ Permutation tbl' (map swap_row tbl).
Proof.
  apply (categorical_swap_symmetry (InList sample_11122) (InList sample_11111)
           sample_11122 sample_11111).
  - reflexivity.
  - reflexivity.
  - left. reflexivity.
  - reflexivity.
Defined.

(** ** Explicit breaks (lines 73-82) *)

(** Breaks given as a list, with no method or the equidistant one: breaks
    that do not increase make [pd.cut] raise its ValueError; increasing
    breaks without duplicates are used as the edges exactly as given, and
    [psi_calc] returns a result. *)
Theorem psi_calc_explicit_breaks (X1 X2 : pyinput) (s1 s2 : Series)
    (m : option string) (l : list Q) (reg : Q) (prec : Z) :
  convert_input X1 msg_invalid_X1 = Ok (PSeries s1) ->
  convert_input X2 msg_invalid_X2 = Ok (PSeries s2) ->
  s_empty s1 = false -> s_empty s2 = false ->
  is_numeric_dtype (s_dtype s1) = true ->
  is_numeric_dtype (s_dtype s2) = true ->
  m = None \/ m = Some "equidistant" ->
  (is_monotonic_increasing l = false ->
     psi_calc X1 X2 m (BinsList l) false reg prec
     = Raise (ValueError msg_monotonic))
  /\ (is_monotonic_increasing l = true -> unique l = l -> l <> [] ->
      (exists cats, bin_expected (s_values s1) m (BinsList l) = Ok (cats, l))
      /\ exists r, psi_calc X1 X2 m (BinsList l) false reg prec = Ok r).
Proof.
  intros H1 H2 E1 E2 N1 N2 Hm.
  rewrite (psi_calc_nonempty _ _ _ _ _ _ _ _ _ H1 H2 E1 E2).
  assert (B : bin_expected (s_values s1) m (BinsList l)
              = pd_cut (s_values s1) (BinsList l) true).
  { destruct Hm as [->| ->]; reflexivity. }
  split.
  - intros M.
    assert (C : categorize s1 s2 m (BinsList l) false
                = Raise (ValueError msg_monotonic)).
    { apply categorize_raise_iff. repeat split; auto. right. split; auto.
      rewrite B. cbn [pd_cut]. rewrite M. reflexivity. }
    rewrite C. reflexivity.
  - intros M U NE.
    assert (K : exists cats, bin_expected (s_values s1) m (BinsList l)
                             = Ok (cats, l)).
    { rewrite B. cbn [pd_cut]. rewrite M. unfold bins_to_cuts.
      rewrite U, Nat.ltb_irrefl. cbn [andb bind].
      destruct l as [|b0 rest]; [congruence | eauto]. }
    split; [exact K|]. destruct K as [cats K].
    rewrite (categorize_numeric _ _ _ _ _ _ N1 N2 K). cbn [bind]. eauto.
Qed.

Lemma psi_calc_explicit_breaks_witness :
  (is_monotonic_increasing [0; 2; 4; 8] = false ->
     psi_calc (InArray 1 main_X1) (InArray 1 main_X2) None
              (BinsList [0; 2; 4; 8]) false (1 # 10000) 3
     = Raise (ValueError msg_monotonic))
  /\ (is_monotonic_increasing [0; 2; 4; 8] = true ->
      unique [0; 2; 4; 8] = [0; 2; 4; 8] -> [0; 2; 4; 8] <> [] ->
      (exists cats, bin_expected (s_values main_X1) None (BinsList [0; 2; 4; 8])
                    = Ok (cats, [0; 2; 4; 8]))
      /\ exists r, psi_calc (InArray 1 main_X1) (InArray 1 main_X2) None
                            (BinsList [0; 2; 4; 8]) false (1 # 10000) 3
                   = Ok r).
Proof.
  apply (psi_calc_explicit_breaks (InArray 1 main_X1) (InArray 1 main_X2)
           main_X1 main_X2 None [0; 2; 4; 8] (1 # 10000) 3);
    try reflexivity.
  left. reflexivity.
Defined.
